(** * Smart Parking Management System: embedding and verified properties

    A shallow embedding of the core of [Smart_Parking_Management_System.py]:
    the slot registry ([parking_lot]), the allocation routine
    ([find_available_slot]), the billing routine ([calculate_fee]), the
    entry / exit orchestration ([vehicle_entry], [vehicle_exit]) and the
    figures computed by [display_status] and [display_daily_report].

    Modelling conventions.
    - Python [str] is [string]; identifiers are taken to be ASCII text, and
      [upper] is [str.upper] on ASCII letters.
    - A Python [dict] keeps insertion order and the allocation scans depend
      on it, so a dict is an association list; [dict_set] overwrites in
      place when the key exists and appends otherwise, as Python does.
    - [datetime] values are integers counting microseconds (the resolution
      of [datetime.now()]); [timedelta.total_seconds()] is the rational
      number of seconds.  IEEE rounding of the float arithmetic is not
      modelled: the quotient is taken exactly.
    - [datetime.now()] is an input of the operation that reads it.
    - [random.shuffle] is an arbitrary function on the key list.
    - Console output is the returned report; an uncaught Python exception
      is the [Raise] outcome. *)

From Stdlib Require Import ZArith QArith Qround List String Ascii Bool Lia.
From Stdlib Require Import DecimalString DecimalNat Permutation.
Import ListNotations.

Local Open Scope string_scope.
Local Open Scope Z_scope.

(** ** Strings *)

Definition upper_char (c : ascii) : ascii :=
  let n := nat_of_ascii c in
  if (97 <=? n)%nat && (n <=? 122)%nat then ascii_of_nat (n - 32) else c.

Fixpoint upper (s : string) : string :=
  match s with
  | EmptyString => EmptyString
  | String c r => String (upper_char c) (upper r)
  end.

(** [s.startswith(p)] *)
Definition startswith (s p : string) : bool := String.prefix p s.

(** Truth value of a string in a Python condition: only [''] is false. *)
Definition truthy (s : string) : bool :=
  match s with
  | EmptyString => false
  | _ => true
  end.

(** [f"{index:02d}"] *)
Definition format_02d (index : nat) : string :=
  let digits := NilEmpty.string_of_uint (Nat.to_uint index) in
  if (index <? 10)%nat then "0" ++ digits else digits.

(** ** Exceptions *)

Inductive exn : Type :=
| IndexError
| KeyError
| AttributeError
| TypeError.

Inductive result (A : Type) : Type :=
| Ok (a : A)
| Raise (e : exn).

Arguments Ok {A} a.
Arguments Raise {A} e.

Definition bind {A B : Type} (r : result A) (k : A -> result B) : result B :=
  match r with
  | Ok a => k a
  | Raise e => Raise e
  end.

Notation "x <- r ;; k" := (bind r (fun x => k))
  (at level 61, r at next level, right associativity).

(** ** Ordered dictionaries *)

Definition dict (V : Type) : Type := list (string * V).

Fixpoint dict_get {V : Type} (d : dict V) (k : string) : option V :=
  match d with
  | [] => None
  | (k', v) :: rest => if String.eqb k' k then Some v else dict_get rest k
  end.

(** [d[k] = v] *)
Fixpoint dict_set {V : Type} (d : dict V) (k : string) (v : V) : dict V :=
  match d with
  | [] => [(k, v)]
  | (k', v') :: rest =>
      if String.eqb k' k then (k', v) :: rest
      else (k', v') :: dict_set rest k v
  end.

(** [d[k]] as an expression *)
Definition dict_getitem {V : Type} (d : dict V) (k : string) : result V :=
  match dict_get d k with
  | Some v => Ok v
  | None => Raise KeyError
  end.

Definition keys {V : Type} (d : dict V) : list string := map fst d.

(** ** Configuration *)

Record capacities : Type := {
  cap_BIKE : nat;
  cap_CAR : nat;
  cap_EV : nat;
  cap_HEAVY : nat;
  cap_VIP : nat
}.

Definition MAX_SLOTS : capacities :=
  {| cap_BIKE := 20; cap_CAR := 30; cap_EV := 10; cap_HEAVY := 5; cap_VIP := 5 |}.

(** [MAX_SLOTS[v_type]] for the five literal keys used by the source. *)
Definition capacity (caps : capacities) (v_type : string) : result nat :=
  if String.eqb v_type "BIKE" then Ok (cap_BIKE caps)
  else if String.eqb v_type "CAR" then Ok (cap_CAR caps)
  else if String.eqb v_type "EV" then Ok (cap_EV caps)
  else if String.eqb v_type "HEAVY" then Ok (cap_HEAVY caps)
  else if String.eqb v_type "VIP" then Ok (cap_VIP caps)
  else Raise KeyError.

Record tier : Type := {
  FIXED_HOURS : Z;
  FIXED_RATE : Z;
  PER_HOUR : Z
}.

Definition PRICING : dict tier :=
  [ ("BIKE",  {| FIXED_HOURS := 2; FIXED_RATE := 5;  PER_HOUR := 2 |});
    ("CAR",   {| FIXED_HOURS := 2; FIXED_RATE := 10; PER_HOUR := 5 |});
    ("EV",    {| FIXED_HOURS := 2; FIXED_RATE := 12; PER_HOUR := 6 |});
    ("HEAVY", {| FIXED_HOURS := 1; FIXED_RATE := 15; PER_HOUR := 8 |});
    ("VIP",   {| FIXED_HOURS := 3; FIXED_RATE := 15; PER_HOUR := 4 |}) ].

(** [PRICING['CAR']] *)
Definition PRICING_CAR : tier :=
  {| FIXED_HOURS := 2; FIXED_RATE := 10; PER_HOUR := 5 |}.

(** [PRICING['VIP']] *)
Definition PRICING_VIP : tier :=
  {| FIXED_HOURS := 3; FIXED_RATE := 15; PER_HOUR := 4 |}.

(** [PRICING.get(vehicle_type, PRICING['CAR'])] *)
Definition pricing_scheme (vehicle_type : string) : tier :=
  match dict_get PRICING vehicle_type with
  | Some t => t
  | None => PRICING_CAR
  end.

(** ** Global state *)

Record reservation : Type := {
  vehicle_no : string;
  type : string;
  entry_time : Z;
  is_vip : bool
}.

Record transaction : Type := {
  tx_vehicle_no : string;
  tx_type : string;
  tx_slot_id : string;
  tx_entry_time : Z;
  tx_exit_time : Z;
  tx_duration_hrs : Z;
  tx_fee : Z
}.

Definition lot : Type := dict (option reservation).

Record state : Type := {
  parking_lot : lot;
  revenue_log : list transaction
}.

(** ** Slot registry construction *)

(** [vehicle_type[0].upper()] *)
Definition first_upper (vehicle_type : string) : result string :=
  match vehicle_type with
  | EmptyString => Raise IndexError
  | String c _ => Ok (String (upper_char c) EmptyString)
  end.

Definition generate_slot_id (vehicle_type : string) (index : nat) : result string :=
  prefix <- first_upper vehicle_type ;;
  let prefix :=
    if String.eqb vehicle_type "EV" then "E"
    else if String.eqb vehicle_type "HEAVY" then "H"
    else if String.eqb vehicle_type "VIP" then "V"
    else prefix in
  Ok (prefix ++ "-" ++ format_02d index).

(** The body of [for _ in range(count)] in [initialize_parking_lot],
    started with [index_map[v_type] = index]. *)
Fixpoint fill_slots (v_type : string) (count index : nat) (l : lot) : result lot :=
  match count with
  | O => Ok l
  | S count' =>
      slot_id <- generate_slot_id v_type index ;;
      fill_slots v_type count' (S index) (dict_set l slot_id None)
  end.

(** [for v_type in [...]: for _ in range(MAX_SLOTS[v_type]): ...] *)
Fixpoint fill_types (caps : capacities) (v_types : list string) (l : lot) : result lot :=
  match v_types with
  | [] => Ok l
  | v_type :: rest =>
      count <- capacity caps v_type ;;
      l' <- fill_slots v_type count 1 l ;;
      fill_types caps rest l'
  end.

(** [{k: parking_lot[k] for k in shuffled_keys}] *)
Fixpoint rebuild (source : lot) (shuffled_keys : list string) (temp_lot : lot) : result lot :=
  match shuffled_keys with
  | [] => Ok temp_lot
  | k :: rest =>
      v <- dict_getitem source k ;;
      rebuild source rest (dict_set temp_lot k v)
  end.

Definition initialize_parking_lot (caps : capacities)
    (shuffle : list string -> list string) : result lot :=
  count <- capacity caps "VIP" ;;
  l <- fill_slots "VIP" count 1 [] ;;
  l <- fill_types caps ["BIKE"; "CAR"; "EV"; "HEAVY"] l ;;
  rebuild l (shuffle (keys l)) [].

(** ** Billing *)

(** [duration.total_seconds()] for a duration counted in microseconds. *)
Definition total_seconds (duration : Z) : Q := duration # 1000000.

(** [max(1, (total_seconds + 3599) // 3600)] *)
Definition total_hours (duration : Z) : Z :=
  Z.max 1 (Qfloor ((total_seconds duration + 3599) / 3600)).

Definition calculate_fee (entry_time exit_time : Z) (vehicle_type : string) : Z * Z :=
  let duration := exit_time - entry_time in
  let total_hours := total_hours duration in
  let pricing_scheme := pricing_scheme vehicle_type in
  let fixed_hours := FIXED_HOURS pricing_scheme in
  let fixed_rate := FIXED_RATE pricing_scheme in
  let per_hour_rate := PER_HOUR pricing_scheme in
  let fee :=
    if total_hours <=? fixed_hours then fixed_rate
    else
      let extra_hours := total_hours - fixed_hours in
      fixed_rate + extra_hours * per_hour_rate in
  (fee, total_hours).


(** ** Allocation *)

(** [status is None] *)
Definition is_None {A : Type} (status : option A) : bool :=
  match status with
  | None => true
  | Some _ => false
  end.

(** [for slot_id, status in parking_lot.items():
       if wanted(slot_id) and status is None: return slot_id, ...] *)
Fixpoint first_empty (wanted : string -> bool) (l : lot) : option string :=
  match l with
  | [] => None
  | (slot_id, status) :: rest =>
      if wanted slot_id && is_None status then Some slot_id
      else first_empty wanted rest
  end.

(** [vehicle_type in ['CAR', 'EV']] *)
Definition is_car_or_ev (vehicle_type : string) : bool :=
  String.eqb vehicle_type "CAR" || String.eqb vehicle_type "EV".

(** [parking_lot.get(slot_id, {}).get('type', vehicle_type)]: the outer
    [get] yields the stored value whenever the key is present, also when
    that value is [None]; the default [{}] is used for a missing key only. *)
Definition stored_type (l : lot) (slot_id vehicle_type : string) : result string :=
  match dict_get l slot_id with
  | None => Ok vehicle_type
  | Some None => Raise AttributeError
  | Some (Some info) => Ok (type info)
  end.

(** The pair [(slot_id, allocated_type)]; [None] stands for [(None, None)]. *)
Definition find_available_slot (l : lot) (vehicle_type : string) (is_vip : bool)
    : result (option (string * string)) :=
  match (if is_vip then first_empty (fun s => startswith s "V-") l else None) with
  | Some slot_id => Ok (Some (slot_id, "VIP"))
  | None =>
      type_prefix <- first_upper vehicle_type ;;
      let type_prefix :=
        if String.eqb vehicle_type "EV" then "E"
        else if String.eqb vehicle_type "HEAVY" then "H"
        else type_prefix in
      match first_empty (fun s => startswith s (type_prefix ++ "-")) l with
      | Some slot_id => Ok (Some (slot_id, vehicle_type))
      | None =>
          if is_car_or_ev vehicle_type then
            match first_empty (fun s => startswith s "C-" || startswith s "V-") l with
            | Some slot_id =>
                allocated_type <- stored_type l slot_id vehicle_type ;;
                Ok (Some (slot_id, allocated_type))
            | None => Ok None
            end
          else Ok None
      end
  end.

(** ** Entry and exit *)

(** [vehicle_type in ['BIKE', 'CAR', 'EV', 'HEAVY']] *)
Definition valid_type (vehicle_type : string) : bool :=
  String.eqb vehicle_type "BIKE" || String.eqb vehicle_type "CAR"
  || String.eqb vehicle_type "EV" || String.eqb vehicle_type "HEAVY".

(** [info and info['vehicle_no'] == vehicle_no]; a reservation is a
    non-empty dict, hence true as a condition. *)
Definition holds (info : option reservation) (vehicle_no' : string) : bool :=
  match info with
  | None => false
  | Some r => String.eqb (vehicle_no r) vehicle_no'
  end.

(** The scan shared by [vehicle_entry] and [vehicle_exit]:
    the first slot whose reservation carries [vehicle_no]. *)
Fixpoint find_vehicle (l : lot) (vehicle_no' : string) : option string :=
  match l with
  | [] => None
  | (slot_id, info) :: rest =>
      if holds info vehicle_no' then Some slot_id
      else find_vehicle rest vehicle_no'
  end.

(** What [vehicle_entry] prints. *)
Inductive entry_report : Type :=
| InvalidVehicleType
| DuplicateVehicle (slot_id : string)
| Entered (slot_id : string) (entry_time : Z)
| LotFull.

Definition vehicle_entry (vehicle_no' vehicle_type : string) (is_vip' : bool)
    (now : Z) (st : state) : result entry_report * state :=
  let vehicle_type := upper vehicle_type in
  let vehicle_no' := upper vehicle_no' in
  if negb (valid_type vehicle_type) then (Ok InvalidVehicleType, st)
  else
    match find_vehicle (parking_lot st) vehicle_no' with
    | Some slot_id => (Ok (DuplicateVehicle slot_id), st)
    | None =>
        match find_available_slot (parking_lot st) vehicle_type is_vip' with
        | Raise e => (Raise e, st)
        | Ok found =>
            match found with
            | Some (slot_id, _) =>
                if truthy slot_id then
                  let entry_time := now in
                  let info := {| vehicle_no := vehicle_no';
                                 type := vehicle_type;
                                 entry_time := entry_time;
                                 is_vip := is_vip' |} in
                  (Ok (Entered slot_id entry_time),
                   {| parking_lot := dict_set (parking_lot st) slot_id (Some info);
                      revenue_log := revenue_log st |})
                else (Ok LotFull, st)
            | None => (Ok LotFull, st)
            end
        end
    end.

(** What [vehicle_exit] prints. *)
Inductive exit_report : Type :=
| VehicleNotFound
| ExitReport (slot_id v_type : string) (total_hours fee : Z).

Definition vehicle_exit (vehicle_no' : string) (now : Z) (st : state)
    : result exit_report * state :=
  let vehicle_no' := upper vehicle_no' in
  match find_vehicle (parking_lot st) vehicle_no' with
  | None => (Ok VehicleNotFound, st)
  | Some found_slot_id =>
      if negb (truthy found_slot_id) then (Ok VehicleNotFound, st)
      else
        let exit_time := now in
        match dict_get (parking_lot st) found_slot_id with
        | None => (Raise KeyError, st)
        | Some None => (Raise TypeError, st)
        | Some (Some info) =>
            let entry_time := entry_time info in
            let v_type := type info in
            let '(fee, total_hours) := calculate_fee entry_time exit_time v_type in
            (Ok (ExitReport found_slot_id v_type total_hours fee),
             {| parking_lot := dict_set (parking_lot st) found_slot_id None;
                revenue_log := revenue_log st ++
                  [ {| tx_vehicle_no := vehicle_no';
                       tx_type := v_type;
                       tx_slot_id := found_slot_id;
                       tx_entry_time := entry_time;
                       tx_exit_time := exit_time;
                       tx_duration_hrs := total_hours;
                       tx_fee := fee |} ] |})
        end
  end.


(** ** Dashboard and daily report: the figures computed for display *)

(** The built-in [sum]: a left fold from 0. *)
Definition py_sum (xs : list Z) : Z := fold_left Z.add xs 0.

(** [total_capacity = sum(MAX_SLOTS.values())] *)
Definition total_capacity (caps : capacities) : Z :=
  py_sum [Z.of_nat (cap_BIKE caps); Z.of_nat (cap_CAR caps);
          Z.of_nat (cap_EV caps); Z.of_nat (cap_HEAVY caps);
          Z.of_nat (cap_VIP caps)].

(** [sum(1 for status in parking_lot.values() if status is not None)] *)
Definition occupied_count (l : lot) : Z :=
  py_sum (map (fun _ => 1)
            (filter (fun status => negb (is_None status)) (map snd l))).

(** [total_capacity - occupied_count] *)
Definition available_count (caps : capacities) (l : lot) : Z :=
  total_capacity caps - occupied_count l.

(** [(occupied_count / total_capacity) * 100 if total_capacity else 0] *)
Definition utilization (caps : capacities) (l : lot) : Q :=
  if total_capacity caps =? 0 then 0%Q
  else ((inject_Z (occupied_count l) / inject_Z (total_capacity caps)) * 100)%Q.

(** The [intended_type] chain of [display_status] for an empty slot. *)
Definition intended_type (slot_id : string) : string :=
  if startswith slot_id "B-" then "BIKE"
  else if startswith slot_id "C-" then "CAR"
  else if startswith slot_id "E-" then "EV"
  else if startswith slot_id "H-" then "HEAVY"
  else if startswith slot_id "V-" then "VIP"
  else "UNKNOWN".

(** The three figures of [display_daily_report]; [None] is the early
    return taken on an empty ledger. *)
Record daily_figures : Type := {
  total_revenue : Z;
  total_vehicles : nat;
  avg_duration : Q
}.

Definition display_daily_report (log : list transaction) : option daily_figures :=
  match log with
  | [] => None
  | _ =>
      let total_revenue := py_sum (map tx_fee log) in
      let total_vehicles := List.length log in
      let avg_duration :=
        if (total_vehicles =? 0)%nat then 0%Q
        else (inject_Z (py_sum (map tx_duration_hrs log))
              / inject_Z (Z.of_nat total_vehicles))%Q in
      Some {| total_revenue := total_revenue;
              total_vehicles := total_vehicles;
              avg_duration := avg_duration |}
  end.

(** * Vocabulary of the statements

    Predicates and auxiliary functions used to state the properties below:
    the spec's reading of billed hours, the reservations of a registry, the
    operations of a session and the states they reach. *)

Local Open Scope list_scope.

(** The spec's wording of billed hours: the ceiling of the elapsed hours,
    floored at 1. *)
Definition billed_hours_spec (duration : Z) : Z :=
  Z.max 1 (Qceiling (total_seconds duration / 3600)).

(** The fee as a function of the billed hours. *)
Definition fee_of_hours (t : tier) (hours : Z) : Z :=
  if hours <=? FIXED_HOURS t then FIXED_RATE t
  else FIXED_RATE t + (hours - FIXED_HOURS t) * PER_HOUR t.

(** [slot_id] is the first empty slot accepted by [wanted], in the
    iteration order of the registry. *)
Definition is_first_empty (wanted : string -> bool) (l : lot) (slot_id : string) : Prop :=
  exists before after,
    l = before ++ (slot_id, None) :: after
    /\ wanted slot_id = true
    /\ forall k v, In (k, v) before -> wanted k = true -> v <> None.

(** A dict holds each key once. *)
Definition unique_keys {V : Type} (d : dict V) : Prop := NoDup (keys d).

(** The type-specific prefix computed by [find_available_slot]. *)
Definition type_prefix (vehicle_type : string) : string :=
  if String.eqb vehicle_type "EV" then "E"
  else if String.eqb vehicle_type "HEAVY" then "H"
  else match vehicle_type with
       | EmptyString => EmptyString
       | String c _ => String (upper_char c) EmptyString
       end.

(** The vehicle numbers of the occupied slots, in registry order. *)
Fixpoint parked_vehicles (l : lot) : list string :=
  match l with
  | [] => []
  | (_, Some r) :: rest => vehicle_no r :: parked_vehicles rest
  | (_, None) :: rest => parked_vehicles rest
  end.

(** The state right after start-up: the given registry, an empty ledger. *)
Definition initial_state (l : lot) : state :=
  {| parking_lot := l; revenue_log := [] |}.

(** The capacities of the spill-over scenario: one CAR slot, one VIP slot. *)
Definition one_car_one_vip : capacities :=
  {| cap_BIKE := 0; cap_CAR := 1; cap_EV := 0; cap_HEAVY := 0; cap_VIP := 1 |}.

(** The spill-over scenario of the spec, run on the registry built with
    the given key order: "AB1" takes the CAR slot; "AB2" and "AB3" both
    end in an uncaught [AttributeError], and the VIP slot stays empty. *)
Definition spillover_scenario (shuffle : list string -> list string) : Prop :=
  exists l0 st1,
    initialize_parking_lot one_car_one_vip shuffle = Ok l0
    /\ Permutation l0 [("V-01", None); ("C-01", None)]
    /\ vehicle_entry "AB1" "CAR" false 100 (initial_state l0)
       = (Ok (Entered "C-01" 100), st1)
    /\ vehicle_entry "AB2" "CAR" false 200 st1 = (Raise AttributeError, st1)
    /\ vehicle_entry "AB3" "CAR" false 300 st1 = (Raise AttributeError, st1)
    /\ dict_get (parking_lot st1) "V-01" = Some None.

(** The two state-changing requests of the menu, with the clock reading
    each of them takes. *)
Inductive op : Type :=
| Entry (vehicle_no' vehicle_type : string) (is_vip' : bool) (now : Z)
| Exit (vehicle_no' : string) (now : Z).

(** The state left by one request, whatever it printed or raised. *)
Definition step (st : state) (o : op) : state :=
  match o with
  | Entry v t vip now => snd (vehicle_entry v t vip now st)
  | Exit v now => snd (vehicle_exit v now st)
  end.

(** The state left by a sequence of requests. *)
Definition run (st : state) (ops : list op) : state := fold_left step ops st.

(** The states of a session: the registry as [initialize_parking_lot]
    builds it, with an empty ledger, then any entries and exits. *)
Inductive reachable : state -> Prop :=
| reach_init caps shuffle l0 :
    initialize_parking_lot caps shuffle = Ok l0 ->
    reachable (initial_state l0)
| reach_step st o :
    reachable st -> reachable (step st o).

(** A ledger entry billed at the tier of its own vehicle type. *)
Definition billed_by_type (tx : transaction) : Prop :=
  valid_type (tx_type tx) = true
  /\ (tx_fee tx, tx_duration_hrs tx)
     = calculate_fee (tx_entry_time tx) (tx_exit_time tx) (tx_type tx).

(** What every state of a session satisfies. *)
Record invariant (st : state) : Prop := {
  inv_keys : unique_keys (parking_lot st);
  inv_vehicles : NoDup (parked_vehicles (parking_lot st));
  inv_upper : forall slot_id r,
    In (slot_id, Some r) (parking_lot st) -> upper (vehicle_no r) = vehicle_no r;
  inv_types : forall slot_id r,
    In (slot_id, Some r) (parking_lot st) -> valid_type (type r) = true;
  inv_ledger : Forall billed_by_type (revenue_log st)
}.

(** No slot of the registry is occupied. *)
Definition all_empty (l : lot) : Prop := forall k v, In (k, v) l -> v = None.

(** A short session on the two-slot registry, used to exercise the
    invariants. *)
Definition sample_ops : list op :=
  [ Entry "ab1" "car" false 100;
    Entry "Ab1" "bike" true 150;
    Entry "cd2" "ev" true 200;
    Exit "AB1" 7200000100;
    Entry "ab1" "car" false 7200000200 ].

(** An operation that is not an exit of the vehicle [u]. *)
Definition no_exit_of (u : string) (o : op) : Prop :=
  match o with
  | Exit v _ => upper v <> u
  | Entry _ _ _ _ => True
  end.

(** The slot ids of one pool: [prefix-01], [prefix-02], ... *)
Definition slot_ids (prefix : string) (count : nat) : list string :=
  map (fun index => (prefix ++ "-" ++ format_02d index)%string) (seq 1 count).

(** All slot ids in creation order: the VIP pool first, then BIKE, CAR,
    EV and HEAVY. *)
Definition all_slot_ids (caps : capacities) : list string :=
  slot_ids "V" (cap_VIP caps) ++ slot_ids "B" (cap_BIKE caps)
  ++ slot_ids "C" (cap_CAR caps) ++ slot_ids "E" (cap_EV caps)
  ++ slot_ids "H" (cap_HEAVY caps).

(** A registry of empty slots with the given ids, in the given order. *)
Definition empty_lot (ids : list string) : lot :=
  map (fun k => (k, @None reservation)) ids.

(** The number read back from a slot id's two-digit suffix. *)
Definition parse_decimal (s : string) : option nat :=
  option_map Nat.of_uint (NilEmpty.uint_of_string s).

(** No empty slot of the registry is accepted by [wanted]. *)
Definition exhausted (wanted : string -> bool) (l : lot) : Prop :=
  forall k, In (k, None) l -> wanted k = false.

(** The ids of a pool from a given first index on. *)
Definition pool_ids (prefix : string) (index count : nat) : list string :=
  map (fun i => (prefix ++ "-" ++ format_02d i)%string) (seq index count).

(** * Billing: properties of [calculate_fee] *)

Section Billing.

(** The rational floor of the source, as an integer quotient on microseconds. *)
Lemma total_hours_quot (duration : Z) :
  total_hours duration = Z.max 1 ((duration + 3599000000) / 3600000000).
Proof.
  unfold total_hours, total_seconds, Qfloor, Qdiv, Qmult, Qinv, Qplus.
  cbn [Qnum Qden inject_Z].
  f_equal. f_equal; lia.
Qed.

Lemma billed_hours_spec_quot (duration : Z) :
  billed_hours_spec duration = Z.max 1 (- ((- duration) / 3600000000)).
Proof.
  unfold billed_hours_spec, Qceiling, total_seconds, Qfloor, Qdiv, Qmult, Qinv, Qopp.
  cbn [Qnum Qden inject_Z].
  f_equal. f_equal. f_equal; lia.
Qed.


(** Every lookup in the pricing table, defaulted or not, lands on one of
    its five tiers. *)
Lemma pricing_scheme_in_table (vehicle_type : string) :
  In (pricing_scheme vehicle_type) (map snd PRICING).
Proof.
  unfold pricing_scheme, PRICING. cbn [dict_get map snd].
  repeat (match goal with
          | |- context [String.eqb ?a ?b] => destruct (String.eqb a b)
          end; [cbn [In]; tauto |]).
  cbn [In]. unfold PRICING_CAR. tauto.
Qed.

Lemma tier_bounds (vehicle_type : string) :
  1 <= FIXED_HOURS (pricing_scheme vehicle_type)
  /\ 0 <= PER_HOUR (pricing_scheme vehicle_type).
Proof.
  pose proof (pricing_scheme_in_table vehicle_type) as H.
  unfold PRICING in H. cbn [map snd In] in H.
  repeat (destruct H as [<- | H]; [cbn; lia |]).
  contradiction.
Qed.

Lemma total_hours_ge_1 (duration : Z) : 1 <= total_hours duration.
Proof. unfold total_hours. lia. Qed.

Lemma total_hours_mono (d1 d2 : Z) :
  d1 <= d2 -> total_hours d1 <= total_hours d2.
Proof.
  intros H. rewrite !total_hours_quot.
  apply Z.max_le_compat_l, Z.div_le_mono; lia.
Qed.

(** Durations below one hour and one microsecond, negative ones included,
    are billed the minimum. *)
Lemma total_hours_short (duration : Z) :
  duration < 3600000001 -> total_hours duration = 1.
Proof.
  intros H. rewrite total_hours_quot.
  assert ((duration + 3599000000) / 3600000000 <= 1); [| lia].
  assert ((duration + 3599000000) / 3600000000 < 2); [| lia].
  apply Z.div_lt_upper_bound; lia.
Qed.

(** On durations that are whole seconds the [+ 3599] idiom is the ceiling. *)
Lemma total_hours_whole_seconds (seconds : Z) :
  0 <= seconds ->
  total_hours (seconds * 1000000) = billed_hours_spec (seconds * 1000000).
Proof.
  intros H. rewrite total_hours_quot, billed_hours_spec_quot. f_equal.
  replace (seconds * 1000000 + 3599000000) with ((seconds + 3599) * 1000000) by lia.
  replace 3600000000 with (3600 * 1000000) by lia.
  replace (- (seconds * 1000000)) with ((- seconds) * 1000000) by lia.
  rewrite !Z.div_mul_cancel_r by lia.
  pose proof (Z.div_mod seconds 3600 ltac:(lia)) as E.
  pose proof (Z.mod_pos_bound seconds 3600 ltac:(lia)) as B.
  set (q := seconds / 3600) in *. set (r := seconds mod 3600) in *.
  destruct (Z.eq_dec r 0) as [R0 | R0].
  - replace (seconds + 3599) with (3599 + q * 3600) by lia.
    replace (- seconds) with (0 + (- q) * 3600) by lia.
    rewrite !Z.div_add by lia.
    rewrite (Z.div_small 3599), (Z.div_small 0) by lia. lia.
  - replace (seconds + 3599) with ((r - 1) + (q + 1) * 3600) by lia.
    replace (- seconds) with ((3600 - r) + (- q - 1) * 3600) by lia.
    rewrite !Z.div_add by lia.
    rewrite (Z.div_small (r - 1)), (Z.div_small (3600 - r)) by lia. lia.
Qed.

Lemma calculate_fee_unfold (entry_time exit_time : Z) (vehicle_type : string) :
  calculate_fee entry_time exit_time vehicle_type =
  (fee_of_hours (pricing_scheme vehicle_type) (total_hours (exit_time - entry_time)),
   total_hours (exit_time - entry_time)).
Proof. reflexivity. Qed.

Lemma fee_of_hours_mono (t : tier) (h1 h2 : Z) :
  0 <= PER_HOUR t -> h1 <= h2 -> fee_of_hours t h1 <= fee_of_hours t h2.
Proof.
  intros P H. unfold fee_of_hours.
  destruct (Z.leb_spec h1 (FIXED_HOURS t)), (Z.leb_spec h2 (FIXED_HOURS t)); nia.
Qed.


(** C2, as stated, fails: with an exit time one second before the entry
    time, [calculate_fee] raises nothing and returns the fee 10 for 1 billed
    hour. *)
Lemma calculate_fee_exit_before_entry_counterexample :
  let entry_time := 1000000 in
  let exit_time := 0 in
  exit_time < entry_time
  /\ calculate_fee entry_time exit_time "CAR" = (10, 1).
Proof. split; reflexivity. Qed.

(** C2, amended: [calculate_fee] validates no time range.  When the exit
    time precedes the entry time it returns 1 billed hour and the flat
    [FIXED_RATE] of the category's tier, exactly what it returns for a
    zero duration. *)
Theorem calculate_fee_exit_before_entry
    (vehicle_type : string) (entry_time exit_time : Z) :
  exit_time < entry_time ->
  calculate_fee entry_time exit_time vehicle_type
    = (FIXED_RATE (pricing_scheme vehicle_type), 1)
  /\ calculate_fee entry_time exit_time vehicle_type
    = calculate_fee entry_time entry_time vehicle_type.
Proof.
  intros H. rewrite !calculate_fee_unfold.
  rewrite (total_hours_short (exit_time - entry_time)) by lia.
  rewrite (total_hours_short (entry_time - entry_time)) by lia.
  unfold fee_of_hours.
  destruct (tier_bounds vehicle_type) as [F _].
  destruct (Z.leb_spec 1 (FIXED_HOURS (pricing_scheme vehicle_type))); [| lia].
  split; reflexivity.
Qed.

Lemma calculate_fee_exit_before_entry_witness :
  calculate_fee 1000000 0 "CAR" = (FIXED_RATE (pricing_scheme "CAR"), 1)
  /\ calculate_fee 1000000 0 "CAR" = calculate_fee 1000000 1000000 "CAR".
Proof. apply (calculate_fee_exit_before_entry "CAR" 1000000 0). lia. Defined.

(** C3, evaluated at a failing input: a stay of one hour and half a second
    is billed 1 hour by [calculate_fee], where the ceiling of the elapsed
    hours is 2. *)
Theorem calculate_fee_fractional_second_billed_hours :
  let entry_time := 0 in
  let exit_time := 3600500000 in
  snd (calculate_fee entry_time exit_time "CAR") = 1
  /\ billed_hours_spec (exit_time - entry_time) = 2.
Proof. split; reflexivity. Qed.



(** C6: for a fixed category the fee never decreases when the stay gets
    longer. *)
Theorem calculate_fee_monotone
    (vehicle_type : string) (entry1 exit1 entry2 exit2 : Z) :
  0 <= exit1 - entry1 ->
  exit1 - entry1 <= exit2 - entry2 ->
  fst (calculate_fee entry1 exit1 vehicle_type)
  <= fst (calculate_fee entry2 exit2 vehicle_type).
Proof.
  intros _ H. rewrite !calculate_fee_unfold. cbn [fst].
  apply fee_of_hours_mono.
  - apply tier_bounds.
  - apply total_hours_mono, H.
Qed.

Lemma calculate_fee_monotone_witness :
  fst (calculate_fee 0 7200000000 "EV") <= fst (calculate_fee 5 18000000005 "EV").
Proof. apply (calculate_fee_monotone "EV" 0 7200000000 5 18000000005); lia. Defined.

End Billing.

(** * Allocation: properties of [find_available_slot] *)

Section Allocation.

Lemma first_empty_Some (wanted : string -> bool) (l : lot) (slot_id : string) :
  first_empty wanted l = Some slot_id -> is_first_empty wanted l slot_id.
Proof.
  induction l as [| [k v] rest IH]; cbn [first_empty]; [discriminate |].
  destruct (wanted k) eqn:W, v as [r |]; cbn [andb is_None].
  - intros H. destruct (IH H) as (before & after & -> & Hw & Hfirst).
    exists ((k, Some r) :: before), after. repeat split; trivial.
    intros k' v' [E | Hin] Hk'; [inversion E; discriminate | eauto].
  - intros [= <-]. exists [], rest. repeat split; trivial.
    intros ? ? [].
  - intros H. destruct (IH H) as (before & after & -> & Hw & Hfirst).
    exists ((k, Some r) :: before), after. repeat split; trivial.
    intros k' v' [E | Hin] Hk'; [inversion E; discriminate | eauto].
  - intros H. destruct (IH H) as (before & after & -> & Hw & Hfirst).
    exists ((k, None) :: before), after. repeat split; trivial.
    intros k' v' [E | Hin] Hk'; [inversion E; congruence | eauto].
Qed.

Lemma first_empty_None (wanted : string -> bool) (l : lot) :
  first_empty wanted l = None ->
  forall k, In (k, None) l -> wanted k = false.
Proof.
  induction l as [| [k v] rest IH]; cbn [first_empty]; [intros _ ? [] |].
  destruct (wanted k) eqn:W, v as [r |]; cbn [andb is_None];
    try discriminate; intros H k' [E | Hin]; try (inversion E; subst); eauto;
    discriminate.
Qed.

Lemma first_empty_exists (wanted : string -> bool) (l : lot) (k : string) :
  In (k, None) l -> wanted k = true ->
  exists slot_id, first_empty wanted l = Some slot_id.
Proof.
  intros Hin Hw. destruct (first_empty wanted l) as [s |] eqn:E; [eauto |].
  rewrite (first_empty_None _ _ E _ Hin) in Hw. discriminate.
Qed.

Lemma first_empty_In (wanted : string -> bool) (l : lot) (slot_id : string) :
  first_empty wanted l = Some slot_id ->
  In (slot_id, None) l /\ wanted slot_id = true.
Proof.
  intros H. destruct (first_empty_Some _ _ _ H) as (b & a & -> & Hw & _).
  split; [apply in_or_app; right; left; reflexivity | exact Hw].
Qed.

Lemma dict_get_In {V : Type} (d : dict V) (k : string) (v : V) :
  unique_keys d -> In (k, v) d -> dict_get d k = Some v.
Proof.
  unfold unique_keys, keys.
  induction d as [| [k' v'] rest IH]; cbn [dict_get map fst]; [intros _ [] |].
  intros ND [E | Hin].
  - inversion E; subst. rewrite String.eqb_refl. reflexivity.
  - inversion ND as [| ? ? Hnotin ND']; subst.
    destruct (String.eqb_spec k' k) as [-> | _].
    + exfalso. apply Hnotin. apply (in_map fst) in Hin. exact Hin.
    + auto.
Qed.

Lemma dict_get_Some_In {V : Type} (d : dict V) (k : string) (v : V) :
  dict_get d k = Some v -> In (k, v) d.
Proof.
  induction d as [| [k' v'] rest IH]; cbn [dict_get]; [discriminate |].
  destruct (String.eqb_spec k' k) as [-> | _].
  - intros [= ->]. left; reflexivity.
  - intros H. right; auto.
Qed.


Lemma startswith_V (s : string) :
  startswith s "V-" = true -> exists rest, s = String "V" (String "-" rest).
Proof.
  unfold startswith. destruct s as [| a [| b rest]]; cbn [String.prefix];
    try discriminate.
  - destruct (ascii_dec "V" a); discriminate.
  - destruct (ascii_dec "V" a) as [<- |]; [| discriminate].
    destruct (ascii_dec "-" b) as [<- |]; [| discriminate].
    intros _. exists rest. reflexivity.
Qed.

(** C5: a request flagged VIP, made while some VIP slot is empty, is
    given the first empty VIP slot of the registry, whatever the vehicle
    type and whatever standard slots are empty; that slot is none of the
    BIKE, CAR, EV or HEAVY slots. *)
Theorem vip_request_gets_vip_slot (l : lot) (vehicle_type : string) :
  (exists k, In (k, None) l /\ startswith k "V-" = true) ->
  exists slot_id,
    find_available_slot l vehicle_type true = Ok (Some (slot_id, "VIP"))
    /\ is_first_empty (fun s => startswith s "V-") l slot_id
    /\ startswith slot_id "V-" = true
    /\ startswith slot_id "B-" = false
    /\ startswith slot_id "C-" = false
    /\ startswith slot_id "E-" = false
    /\ startswith slot_id "H-" = false.
Proof.
  intros (k & Hin & Hk).
  destruct (first_empty_exists (fun s => startswith s "V-") l k Hin Hk)
    as [slot_id E].
  exists slot_id. unfold find_available_slot. rewrite E.
  pose proof (first_empty_Some _ _ _ E) as Hfirst.
  destruct (first_empty_In _ _ _ E) as [_ HV]. cbv beta in HV.
  destruct (startswith_V _ HV) as [rest ->].
  repeat split; trivial.
Qed.

Lemma vip_request_gets_vip_slot_witness :
  exists slot_id,
    find_available_slot
      [("C-01", None); ("V-02", Some {| vehicle_no := "AB1"; type := "EV";
                                        entry_time := 0; is_vip := true |});
       ("V-01", None)] "CAR" true
    = Ok (Some (slot_id, "VIP"))
    /\ is_first_empty (fun s => startswith s "V-")
         [("C-01", None); ("V-02", Some {| vehicle_no := "AB1"; type := "EV";
                                           entry_time := 0; is_vip := true |});
          ("V-01", None)] slot_id
    /\ startswith slot_id "V-" = true
    /\ startswith slot_id "B-" = false
    /\ startswith slot_id "C-" = false
    /\ startswith slot_id "E-" = false
    /\ startswith slot_id "H-" = false.
Proof.
  apply vip_request_gets_vip_slot.
  exists "V-01". split; [simpl; tauto | reflexivity].
Defined.

(** The slot chosen by a scan is a key of the registry whose value is
    [None], so the [get] chain of the spillover branch dereferences [None]. *)
Lemma stored_type_of_empty (wanted : string -> bool) (l : lot)
    (slot_id vehicle_type : string) :
  unique_keys l ->
  first_empty wanted l = Some slot_id ->
  stored_type l slot_id vehicle_type = Raise AttributeError.
Proof.
  intros U E. unfold stored_type.
  destruct (first_empty_In _ _ _ E) as [Hin _].
  rewrite (dict_get_In _ _ _ U Hin). reflexivity.
Qed.

(** The spillover branch never returns a slot: whenever a non-VIP CAR or
    EV request finds its own pool full and a CAR or VIP slot empty, the
    call raises [AttributeError]. *)
Lemma spillover_raises (l : lot) (vehicle_type : string) (k : string) :
  unique_keys l ->
  is_car_or_ev vehicle_type = true ->
  (forall s, In (s, None) l ->
     startswith s (type_prefix vehicle_type ++ "-")%string = false) ->
  In (k, None) l ->
  startswith k "C-" || startswith k "V-" = true ->
  find_available_slot l vehicle_type false = Raise AttributeError.
Proof.
  intros U T Full Hin Hk. unfold find_available_slot.
  assert (exists c r, vehicle_type = String c r) as (c & r & Evt).
  { destruct vehicle_type; [discriminate | eauto]. }
  assert (first_upper vehicle_type = Ok (String (upper_char c) EmptyString)) as ->
    by (rewrite Evt; reflexivity).
  cbn [bind].
  assert ((if String.eqb vehicle_type "EV" then "E"
           else if String.eqb vehicle_type "HEAVY" then "H"
           else String (upper_char c) EmptyString) = type_prefix vehicle_type) as ->
    by (unfold type_prefix; rewrite Evt; reflexivity).
  destruct (first_empty
              (fun s => startswith s (type_prefix vehicle_type ++ "-")%string) l)
    as [s |] eqn:E1.
  { destruct (first_empty_In _ _ _ E1) as [Hs Hw]. cbv beta in Hw.
    rewrite (Full _ Hs) in Hw. discriminate. }
  rewrite T.
  destruct (first_empty_exists
              (fun s => startswith s "C-" || startswith s "V-") l k Hin Hk)
    as [slot_id E3].
  rewrite E3, (stored_type_of_empty _ _ _ _ U E3). reflexivity.
Qed.

End Allocation.

(** * Registry: reservations and their vehicles *)

Section Registry.

Lemma upper_char_idempotent (c : ascii) : upper_char (upper_char c) = upper_char c.
Proof. destruct c as [[] [] [] [] [] [] [] []]; reflexivity. Qed.

Lemma upper_idempotent (s : string) : upper (upper s) = upper s.
Proof.
  induction s as [| c s IH]; cbn [upper]; [reflexivity |].
  rewrite upper_char_idempotent, IH. reflexivity.
Qed.

Lemma parked_vehicles_In (l : lot) (v : string) :
  In v (parked_vehicles l) <->
  exists slot_id r, In (slot_id, Some r) l /\ vehicle_no r = v.
Proof.
  induction l as [| [k [r |]] rest IH]; cbn [parked_vehicles].
  - split; [intros [] | intros (? & ? & [] & _)].
  - split.
    + intros [<- | H]; [exists k, r; split; [left |]; reflexivity |].
      apply IH in H as (s & r' & Hin & E). exists s, r'. split; [right |]; trivial.
    + intros (s & r' & [E | Hin] & <-).
      * inversion E; subst. left; reflexivity.
      * right. apply IH. eauto.
  - rewrite IH. split.
    + intros (s & r' & Hin & E). exists s, r'. split; [right |]; trivial.
    + intros (s & r' & [E | Hin] & Ev); [inversion E | eauto].
Qed.

Lemma find_vehicle_None (l : lot) (v : string) :
  find_vehicle l v = None <-> ~ In v (parked_vehicles l).
Proof.
  induction l as [| [k [r |]] rest IH]; cbn [find_vehicle parked_vehicles holds].
  - split; [intros _ [] | reflexivity].
  - destruct (String.eqb_spec (vehicle_no r) v) as [E | N].
    + split; [discriminate | intros H; exfalso; apply H; left; exact E].
    + rewrite IH. cbn [In]. tauto.
  - exact IH.
Qed.

Lemma find_vehicle_Some (l : lot) (v slot_id : string) :
  find_vehicle l v = Some slot_id ->
  exists r, In (slot_id, Some r) l /\ vehicle_no r = v.
Proof.
  induction l as [| [k [r |]] rest IH]; cbn [find_vehicle holds]; [discriminate | |].
  - destruct (String.eqb_spec (vehicle_no r) v) as [E | N].
    + intros [= <-]. exists r. split; [left; reflexivity | exact E].
    + intros H. destruct (IH H) as (r' & Hin & E). exists r'. split; [right |]; trivial.
  - intros H. destruct (IH H) as (r' & Hin & E). exists r'. split; [right |]; trivial.
Qed.

(** Effect of an assignment on the entries of a dict. *)
Lemma dict_set_In {V : Type} (d : dict V) (k : string) (v : V) (k' : string) (v' : V) :
  In (k', v') (dict_set d k v) -> (k' = k /\ v' = v) \/ In (k', v') d.
Proof.
  induction d as [| [k0 v0] rest IH]; cbn [dict_set].
  - intros [E | []]. inversion E; auto.
  - destruct (String.eqb_spec k0 k) as [-> | N].
    + intros [E | Hin]; [inversion E; auto | right; right; trivial].
    + intros [E | Hin]; [right; left; trivial |].
      destruct (IH Hin); [auto | right; right; trivial].
Qed.

Lemma keys_dict_set_present {V : Type} (d : dict V) (k : string) (v : V) :
  In k (keys d) -> keys (dict_set d k v) = keys d.
Proof.
  unfold keys. induction d as [| [k0 v0] rest IH]; cbn [dict_set map fst]; [intros [] |].
  destruct (String.eqb_spec k0 k) as [-> | N]; [reflexivity |].
  intros [E | Hin]; [congruence |]. cbn [map fst]. rewrite IH; trivial.
Qed.

Lemma keys_dict_set_absent {V : Type} (d : dict V) (k : string) (v : V) :
  ~ In k (keys d) -> keys (dict_set d k v) = keys d ++ [k].
Proof.
  unfold keys. induction d as [| [k0 v0] rest IH]; cbn [dict_set map fst]; [reflexivity |].
  intros H. destruct (String.eqb_spec k0 k) as [-> | N].
  - exfalso. apply H. left; reflexivity.
  - cbn [map fst app]. rewrite IH; [reflexivity |]. intros Hin. apply H. right; trivial.
Qed.

Lemma unique_keys_dict_set {V : Type} (d : dict V) (k : string) (v : V) :
  unique_keys d -> unique_keys (dict_set d k v).
Proof.
  unfold unique_keys. intros U.
  destruct (in_dec string_dec k (keys d)) as [Hin | Hout].
  - rewrite keys_dict_set_present; trivial.
  - rewrite keys_dict_set_absent by trivial.
    apply NoDup_app; [trivial | repeat constructor; intros [] | ].
    intros x Hx [<- | []]. contradiction.
Qed.

Lemma dict_get_dict_set_other {V : Type} (d : dict V) (k k' : string) (v : V) :
  k <> k' -> dict_get (dict_set d k v) k' = dict_get d k'.
Proof.
  intros N. induction d as [| [k0 v0] rest IH]; cbn [dict_set dict_get].
  - destruct (String.eqb_spec k k'); [contradiction | reflexivity].
  - destruct (String.eqb_spec k0 k) as [-> | N0]; cbn [dict_get].
    + destruct (String.eqb_spec k k'); [contradiction | reflexivity].
    + rewrite IH. reflexivity.
Qed.

Lemma dict_get_dict_set_same {V : Type} (d : dict V) (k : string) (v : V) :
  dict_get (dict_set d k v) k = Some v.
Proof.
  induction d as [| [k0 v0] rest IH]; cbn [dict_set dict_get].
  - rewrite String.eqb_refl. reflexivity.
  - destruct (String.eqb_spec k0 k) as [-> | N0]; cbn [dict_get].
    + rewrite String.eqb_refl. reflexivity.
    + destruct (String.eqb_spec k0 k); [contradiction | exact IH].
Qed.

End Registry.

(** * Entry and exit: single calls *)

Section Orchestration.

(** C1, evaluated at a failing input.  With one CAR and one VIP slot, in
    either iteration order, the entry of "AB1" takes the CAR slot; the entry
    of "AB2" then reaches the spill-over branch, which raises
    [AttributeError] instead of returning the empty VIP slot: nothing is
    reserved, and "AB3" meets the same exception rather than a full lot. *)
Theorem spillover_scenario_raises :
  spillover_scenario (fun ks => ks) /\ spillover_scenario (@rev string).
Proof.
  split.
  - eexists _, _. repeat split. apply Permutation_refl.
  - eexists _, _. repeat split. apply perm_swap.
Qed.




(** C8: the exit of an identifier that holds no reservation is reported as
    not found and returns the state it was given: registry and ledger are
    untouched. *)
Theorem vehicle_exit_not_found (st : state) (vehicle_no' : string) (now : Z) :
  (forall slot_id r,
     In (slot_id, Some r) (parking_lot st) -> vehicle_no r <> upper vehicle_no') ->
  vehicle_exit vehicle_no' now st = (Ok VehicleNotFound, st).
Proof.
  intros H. unfold vehicle_exit.
  destruct (find_vehicle (parking_lot st) (upper vehicle_no')) as [held |] eqn:F;
    [| reflexivity].
  apply find_vehicle_Some in F as (r & Hin & E).
  exfalso. exact (H _ _ Hin E).
Qed.

Lemma vehicle_exit_not_found_witness :
  vehicle_exit "zz9" 500
    {| parking_lot :=
         [("V-01", None);
          ("C-01", Some {| vehicle_no := "AB1"; type := "CAR";
                           entry_time := 100; is_vip := false |})];
       revenue_log := [] |}
  = (Ok VehicleNotFound,
     {| parking_lot :=
         [("V-01", None);
          ("C-01", Some {| vehicle_no := "AB1"; type := "CAR";
                           entry_time := 100; is_vip := false |})];
       revenue_log := [] |}).
Proof.
  apply vehicle_exit_not_found.
  intros slot_id r [E | [E | []]]; inversion E; subst; discriminate.
Defined.

End Orchestration.

(** * Initialisation always builds a registry *)

Section Initialisation.

Variable caps : capacities.

(** [random.shuffle] permutes the list of keys. *)
Variable shuffle : list string -> list string.
Hypothesis shuffle_permutes : forall ks, Permutation ks (shuffle ks).

Lemma fill_slots_ok (v_type : string) (count index : nat) (l : lot) :
  v_type <> EmptyString ->
  exists l', fill_slots v_type count index l = Ok l'.
Proof.
  intros NE. revert index l.
  induction count as [| count IH]; intros index l; cbn [fill_slots]; [eauto |].
  destruct v_type as [| c r]; [contradiction |].
  unfold generate_slot_id, first_upper. cbn [bind]. apply IH.
Qed.

Lemma dict_get_key {V : Type} (d : dict V) (k : string) :
  In k (keys d) -> exists v, dict_get d k = Some v.
Proof.
  unfold keys. induction d as [| [k0 v0] rest IH]; cbn [map fst dict_get]; [intros [] |].
  destruct (String.eqb_spec k0 k) as [_ | N]; [eauto |].
  intros [E | Hin]; [contradiction | auto].
Qed.

Lemma rebuild_ok (source : lot) (shuffled_keys : list string) (temp_lot : lot) :
  (forall k, In k shuffled_keys -> In k (keys source)) ->
  exists l', rebuild source shuffled_keys temp_lot = Ok l'.
Proof.
  revert temp_lot.
  induction shuffled_keys as [| k rest IH]; intros temp_lot H; cbn [rebuild]; [eauto |].
  destruct (dict_get_key source k) as [v G]; [apply H; left; reflexivity |].
  unfold dict_getitem. rewrite G. cbn [bind].
  apply IH. intros k' Hin. apply H. right; exact Hin.
Qed.

(** Start-up raises nothing: for every capacity table and every
    permutation chosen by the shuffle, a registry is returned. *)
Lemma initialize_parking_lot_ok :
  exists l0, initialize_parking_lot caps shuffle = Ok l0.
Proof.
  unfold initialize_parking_lot. cbn [capacity String.eqb Ascii.eqb Bool.eqb bind].
  destruct (fill_slots_ok "VIP" (cap_VIP caps) 1 []) as [l1 ->]; [discriminate |].
  cbn [bind fill_types capacity String.eqb Ascii.eqb Bool.eqb].
  destruct (fill_slots_ok "BIKE" (cap_BIKE caps) 1 l1) as [l2 ->]; [discriminate |].
  cbn [bind].
  destruct (fill_slots_ok "CAR" (cap_CAR caps) 1 l2) as [l3 ->]; [discriminate |].
  cbn [bind].
  destruct (fill_slots_ok "EV" (cap_EV caps) 1 l3) as [l4 ->]; [discriminate |].
  cbn [bind].
  destruct (fill_slots_ok "HEAVY" (cap_HEAVY caps) 1 l4) as [l5 ->]; [discriminate |].
  cbn [bind].
  apply rebuild_ok. intros k Hin.
  apply (Permutation_in k (Permutation_sym (shuffle_permutes (keys l5))) Hin).
Qed.

End Initialisation.

(** * Reachable states and their invariants *)

Section Reachability.

Lemma reachable_run (st : state) (ops : list op) :
  reachable st -> reachable (run st ops).
Proof.
  revert st. induction ops as [| o ops IH]; intros st H; cbn [run fold_left].
  - exact H.
  - apply IH, reach_step, H.
Qed.

Lemma all_empty_dict_set (l : lot) (k : string) :
  all_empty l -> all_empty (dict_set l k None).
Proof.
  intros H k' v' Hin. apply dict_set_In in Hin as [[_ ->] | Hin]; eauto.
Qed.

Lemma fill_slots_empty (v_type : string) (count index : nat) (l l' : lot) :
  fill_slots v_type count index l = Ok l' ->
  unique_keys l /\ all_empty l -> unique_keys l' /\ all_empty l'.
Proof.
  revert index l. induction count as [| count IH]; intros index l; cbn [fill_slots].
  - intros [= <-]. trivial.
  - destruct (generate_slot_id v_type index) as [slot_id | e]; cbn [bind];
      [| discriminate].
    intros H [U E]. apply (IH _ _ H).
    split; [apply unique_keys_dict_set | apply all_empty_dict_set]; trivial.
Qed.

Lemma fill_types_empty (caps : capacities) (v_types : list string) (l l' : lot) :
  fill_types caps v_types l = Ok l' ->
  unique_keys l /\ all_empty l -> unique_keys l' /\ all_empty l'.
Proof.
  revert l. induction v_types as [| v_type rest IH]; intros l; cbn [fill_types].
  - intros [= <-]. trivial.
  - destruct (capacity caps v_type) as [count | e]; cbn [bind]; [| discriminate].
    destruct (fill_slots v_type count 1 l) as [l1 | e] eqn:F; cbn [bind];
      [| discriminate].
    intros H I. apply (IH _ H). apply (fill_slots_empty _ _ _ _ _ F I).
Qed.

Lemma rebuild_empty (source : lot) (shuffled_keys : list string) (temp_lot l' : lot) :
  all_empty source ->
  rebuild source shuffled_keys temp_lot = Ok l' ->
  unique_keys temp_lot /\ all_empty temp_lot -> unique_keys l' /\ all_empty l'.
Proof.
  intros Hs. revert temp_lot.
  induction shuffled_keys as [| k rest IH]; intros temp_lot; cbn [rebuild].
  - intros [= <-]. trivial.
  - unfold dict_getitem. destruct (dict_get source k) as [v |] eqn:G; cbn [bind];
      [| discriminate].
    apply dict_get_Some_In, Hs in G as ->.
    intros H [U E]. apply (IH _ H).
    split; [apply unique_keys_dict_set | apply all_empty_dict_set]; trivial.
Qed.

Lemma initialize_parking_lot_empty (caps : capacities)
    (shuffle : list string -> list string) (l0 : lot) :
  initialize_parking_lot caps shuffle = Ok l0 ->
  unique_keys l0 /\ all_empty l0.
Proof.
  unfold initialize_parking_lot.
  destruct (capacity caps "VIP") as [count | e]; cbn [bind]; [| discriminate].
  destruct (fill_slots "VIP" count 1 []) as [l1 | e] eqn:F1; cbn [bind];
    [| discriminate].
  destruct (fill_types caps ["BIKE"; "CAR"; "EV"; "HEAVY"] l1) as [l2 | e] eqn:F2;
    cbn [bind]; [| discriminate].
  intros R.
  assert (unique_keys (@nil (string * option reservation)) /\ all_empty []) as I0.
  { split; [constructor | intros ? ? []]. }
  pose proof (fill_slots_empty _ _ _ _ _ F1 I0) as I1.
  pose proof (fill_types_empty _ _ _ _ F2 I1) as [_ E2].
  apply (rebuild_empty _ _ _ _ E2 R I0).
Qed.

Lemma all_empty_no_reservation (l : lot) (slot_id : string) (r : reservation) :
  all_empty l -> ~ In (slot_id, Some r) l.
Proof. intros E Hin. apply E in Hin. discriminate. Qed.

Lemma all_empty_parked (l : lot) : all_empty l -> parked_vehicles l = [].
Proof.
  intros E. destruct (parked_vehicles l) as [| v vs] eqn:P; [reflexivity |].
  assert (In v (parked_vehicles l)) as H by (rewrite P; left; reflexivity).
  apply parked_vehicles_In in H as (s & r & Hin & _).
  destruct (all_empty_no_reservation _ _ _ E Hin).
Qed.

Lemma invariant_initial (caps : capacities)
    (shuffle : list string -> list string) (l0 : lot) :
  initialize_parking_lot caps shuffle = Ok l0 -> invariant (initial_state l0).
Proof.
  intros H. destruct (initialize_parking_lot_empty _ _ _ H) as [U E].
  constructor; cbn [initial_state parking_lot revenue_log].
  - exact U.
  - rewrite (all_empty_parked _ E). constructor.
  - intros s r Hin. destruct (all_empty_no_reservation _ _ _ E Hin).
  - intros s r Hin. destruct (all_empty_no_reservation _ _ _ E Hin).
  - constructor.
Qed.


Lemma parked_vehicles_dict_set_In (l : lot) (k : string)
    (v : option reservation) (x : string) :
  In x (parked_vehicles (dict_set l k v)) ->
  (exists r, v = Some r /\ x = vehicle_no r) \/ In x (parked_vehicles l).
Proof.
  intros H. apply parked_vehicles_In in H as (s & r & Hin & <-).
  apply dict_set_In in Hin as [[_ E] | Hin].
  - left. exists r. split; [symmetry; exact E | reflexivity].
  - right. apply parked_vehicles_In. eauto.
Qed.

Lemma NoDup_parked_tail (k : string) (v : option reservation) (rest : lot) :
  NoDup (parked_vehicles ((k, v) :: rest)) -> NoDup (parked_vehicles rest).
Proof.
  destruct v as [r |]; cbn [parked_vehicles]; [| trivial].
  intros H. inversion H; trivial.
Qed.

Lemma NoDup_parked_release (l : lot) (k : string) :
  NoDup (parked_vehicles l) -> NoDup (parked_vehicles (dict_set l k None)).
Proof.
  induction l as [| [k0 v0] rest IH]; cbn [dict_set].
  - intros _. constructor.
  - intros H. destruct (String.eqb_spec k0 k) as [-> | N].
    + cbn [parked_vehicles]. apply (NoDup_parked_tail _ _ _ H).
    + destruct v0 as [r0 |]; cbn [parked_vehicles] in *; [| auto].
      inversion H as [| ? ? Hnotin ND]; subst. constructor; [| auto].
      intros Hin. apply parked_vehicles_dict_set_In in Hin as [(r & E & _) | Hin];
        [discriminate | contradiction].
Qed.

Lemma NoDup_parked_reserve (l : lot) (k : string) (info : reservation) :
  NoDup (parked_vehicles l) ->
  ~ In (vehicle_no info) (parked_vehicles l) ->
  NoDup (parked_vehicles (dict_set l k (Some info))).
Proof.
  induction l as [| [k0 v0] rest IH]; cbn [dict_set].
  - intros _ _. cbn [parked_vehicles]. repeat constructor. intros [].
  - intros H Hnew. destruct (String.eqb_spec k0 k) as [-> | N].
    + cbn [parked_vehicles]. constructor.
      * destruct v0; cbn [parked_vehicles In] in Hnew; tauto.
      * apply (NoDup_parked_tail _ _ _ H).
    + destruct v0 as [r0 |]; cbn [parked_vehicles In] in *; [| auto].
      inversion H as [| ? ? Hnotin ND]; subst. constructor; [| apply IH; tauto].
      intros Hin. apply parked_vehicles_dict_set_In in Hin as [(r & E & Ev) | Hin].
      * inversion E; subst. tauto.
      * contradiction.
Qed.

Lemma find_available_slot_empty (l : lot) (vehicle_type : string) (is_vip' : bool)
    (slot_id allocated_type : string) :
  find_available_slot l vehicle_type is_vip' = Ok (Some (slot_id, allocated_type)) ->
  In (slot_id, None) l.
Proof.
  unfold find_available_slot.
  destruct (if is_vip' then first_empty (fun s => startswith s "V-") l else None)
    as [s1 |] eqn:E1.
  { intros [= <- _]. destruct is_vip'; [| discriminate].
    apply (first_empty_In _ _ _ E1). }
  destruct (first_upper vehicle_type) as [p | e]; cbn [bind]; [| discriminate].
  match goal with
  | |- context [first_empty ?w l] => destruct (first_empty w l) as [s2 |] eqn:E2
  end.
  { intros [= <- _]. apply (first_empty_In _ _ _ E2). }
  destruct (is_car_or_ev vehicle_type); [| discriminate].
  match goal with
  | |- context [first_empty ?w l] => destruct (first_empty w l) as [s3 |] eqn:E3
  end; [| discriminate].
  destruct (stored_type l s3 vehicle_type); cbn [bind]; [| discriminate].
  intros [= <- _]. apply (first_empty_In _ _ _ E3).
Qed.

(** The shape of every state change made by [vehicle_entry]. *)
Lemma vehicle_entry_cases (v t : string) (vip : bool) (now : Z) (st : state) :
  snd (vehicle_entry v t vip now st) = st
  \/ exists slot_id,
       valid_type (upper t) = true
       /\ find_vehicle (parking_lot st) (upper v) = None
       /\ In (slot_id, None) (parking_lot st)
       /\ truthy slot_id = true
       /\ vehicle_entry v t vip now st
          = (Ok (Entered slot_id now),
             {| parking_lot :=
                  dict_set (parking_lot st) slot_id
                    (Some {| vehicle_no := upper v; type := upper t;
                             entry_time := now; is_vip := vip |});
                revenue_log := revenue_log st |}).
Proof.
  unfold vehicle_entry.
  destruct (valid_type (upper t)) eqn:V; cbn [negb]; [| left; reflexivity].
  destruct (find_vehicle (parking_lot st) (upper v)) eqn:F; [left; reflexivity |].
  destruct (find_available_slot (parking_lot st) (upper t) vip)
    as [[[slot_id ty] |] | e] eqn:A; try (left; reflexivity).
  destruct (truthy slot_id) eqn:T; [| left; reflexivity].
  right. exists slot_id. repeat split; trivial.
  apply (find_available_slot_empty _ _ _ _ _ A).
Qed.

(** The shape of every state change made by [vehicle_exit]. *)
Lemma vehicle_exit_cases (v : string) (now : Z) (st : state) :
  snd (vehicle_exit v now st) = st
  \/ exists slot_id info,
       find_vehicle (parking_lot st) (upper v) = Some slot_id
       /\ truthy slot_id = true
       /\ dict_get (parking_lot st) slot_id = Some (Some info)
       /\ vehicle_exit v now st
          = (Ok (ExitReport slot_id (type info)
                   (snd (calculate_fee (entry_time info) now (type info)))
                   (fst (calculate_fee (entry_time info) now (type info)))),
             {| parking_lot := dict_set (parking_lot st) slot_id None;
                revenue_log := revenue_log st ++
                  [ {| tx_vehicle_no := upper v;
                       tx_type := type info;
                       tx_slot_id := slot_id;
                       tx_entry_time := entry_time info;
                       tx_exit_time := now;
                       tx_duration_hrs :=
                         snd (calculate_fee (entry_time info) now (type info));
                       tx_fee :=
                         fst (calculate_fee (entry_time info) now (type info)) |} ] |}).
Proof.
  unfold vehicle_exit.
  destruct (find_vehicle (parking_lot st) (upper v)) as [slot_id |] eqn:F;
    [| left; reflexivity].
  destruct (truthy slot_id) eqn:T; cbn [negb]; [| left; reflexivity].
  destruct (dict_get (parking_lot st) slot_id) as [[info |] |] eqn:G;
    try (left; reflexivity).
  right. exists slot_id, info. repeat split; trivial.
Qed.

Lemma invariant_step (st : state) (o : op) : invariant st -> invariant (step st o).
Proof.
  intros [U ND Up Ty Led]. destruct o as [v t vip now | v now]; cbn [step].
  - destruct (vehicle_entry_cases v t vip now st)
      as [-> | (slot_id & V & F & _ & _ & ->)]; [constructor; trivial |].
    cbn [snd]. constructor; cbn [parking_lot revenue_log]; trivial.
    + apply unique_keys_dict_set, U.
    + apply NoDup_parked_reserve; [exact ND |].
      apply find_vehicle_None, F.
    + intros s r Hin. apply dict_set_In in Hin as [[_ E] | Hin]; [| eauto].
      inversion E; subst. apply upper_idempotent.
    + intros s r Hin. apply dict_set_In in Hin as [[_ E] | Hin]; [| eauto].
      inversion E; subst. exact V.
  - destruct (vehicle_exit_cases v now st)
      as [-> | (slot_id & info & F & _ & G & ->)]; [constructor; trivial |].
    cbn [snd]. constructor; cbn [parking_lot revenue_log]; trivial.
    + apply unique_keys_dict_set, U.
    + apply NoDup_parked_release, ND.
    + intros s r Hin. apply dict_set_In in Hin as [[_ E] | Hin];
        [discriminate | eauto].
    + intros s r Hin. apply dict_set_In in Hin as [[_ E] | Hin];
        [discriminate | eauto].
    + apply Forall_app. split; [exact Led |]. repeat constructor;
        cbn [tx_type tx_fee tx_duration_hrs tx_entry_time tx_exit_time].
      apply dict_get_Some_In in G. eauto.
Qed.

Lemma reachable_invariant (st : state) : reachable st -> invariant st.
Proof.
  induction 1 as [caps shuffle l0 H | st o _ IH].
  - apply (invariant_initial _ _ _ H).
  - apply invariant_step, IH.
Qed.


Lemma same_vehicle_same_reservation (l : lot)
    (s1 s2 : string) (r1 r2 : reservation) :
  NoDup (parked_vehicles l) ->
  In (s1, Some r1) l -> In (s2, Some r2) l ->
  vehicle_no r1 = vehicle_no r2 ->
  s1 = s2 /\ r1 = r2.
Proof.
  induction l as [| [k [r |]] rest IH]; cbn [parked_vehicles]; [intros _ [] | |].
  - intros ND [E1 | H1] [E2 | H2] Ev.
    + inversion E1; inversion E2; subst. auto.
    + inversion E1; subst. inversion ND as [| ? ? Hnotin _]; subst.
      exfalso. apply Hnotin. apply parked_vehicles_In. eauto.
    + inversion E2; subst. inversion ND as [| ? ? Hnotin _]; subst.
      exfalso. apply Hnotin. apply parked_vehicles_In. eauto.
    + inversion ND; subst. auto.
  - intros ND [E1 | H1] [E2 | H2] Ev; try discriminate. auto.
Qed.

(** C9: in every state reached from the freshly built registry by entries
    and exits, the normalised vehicle identifiers of the reservations are
    pairwise distinct: two occupied slots never carry the same identifier. *)
Theorem vehicle_in_at_most_one_reservation (st : state) :
  reachable st ->
  NoDup (map upper (parked_vehicles (parking_lot st)))
  /\ forall s1 r1 s2 r2,
       In (s1, Some r1) (parking_lot st) ->
       In (s2, Some r2) (parking_lot st) ->
       upper (vehicle_no r1) = upper (vehicle_no r2) ->
       s1 = s2 /\ r1 = r2.
Proof.
  intros R. destruct (reachable_invariant _ R) as [_ ND Up _ _]. split.
  - replace (map upper (parked_vehicles (parking_lot st)))
      with (parked_vehicles (parking_lot st)); [exact ND |].
    rewrite <- (map_id (parked_vehicles (parking_lot st))) at 1.
    apply map_ext_in. intros v Hin.
    apply parked_vehicles_In in Hin as (s & r & Hin & <-).
    symmetry. eauto.
  - intros s1 r1 s2 r2 H1 H2 E.
    rewrite (Up _ _ H1), (Up _ _ H2) in E.
    apply (same_vehicle_same_reservation _ _ _ _ _ ND H1 H2 E).
Qed.

Lemma sample_reachable :
  reachable (run (initial_state [("V-01", None); ("C-01", None)]) sample_ops).
Proof.
  apply reachable_run.
  apply (reach_init one_car_one_vip (fun ks => ks)). reflexivity.
Defined.

Lemma vehicle_in_at_most_one_reservation_witness :
  let st := run (initial_state [("V-01", None); ("C-01", None)]) sample_ops in
  NoDup (map upper (parked_vehicles (parking_lot st)))
  /\ forall s1 r1 s2 r2,
       In (s1, Some r1) (parking_lot st) ->
       In (s2, Some r2) (parking_lot st) ->
       upper (vehicle_no r1) = upper (vehicle_no r2) ->
       s1 = s2 /\ r1 = r2.
Proof. apply (vehicle_in_at_most_one_reservation _ sample_reachable). Defined.


Lemma valid_type_cases (vehicle_type : string) :
  valid_type vehicle_type = true ->
  vehicle_type = "BIKE" \/ vehicle_type = "CAR"
  \/ vehicle_type = "EV" \/ vehicle_type = "HEAVY".
Proof.
  unfold valid_type. rewrite !orb_true_iff, !String.eqb_eq. tauto.
Qed.

(** A valid vehicle type has its own entry in the pricing table, and that
    entry is not the VIP tier. *)
Lemma valid_type_tier (vehicle_type : string) :
  valid_type vehicle_type = true ->
  dict_get PRICING vehicle_type = Some (pricing_scheme vehicle_type)
  /\ pricing_scheme vehicle_type <> PRICING_VIP.
Proof.
  intros H. destruct (valid_type_cases _ H) as [-> | [-> | [-> | ->]]];
    (split; [reflexivity | discriminate]).
Qed.

Lemma vehicle_entry_Entered (v t : string) (vip : bool) (now : Z) (st st1 : state)
    (slot_id : string) (at_time : Z) :
  vehicle_entry v t vip now st = (Ok (Entered slot_id at_time), st1) ->
  valid_type (upper t) = true
  /\ truthy slot_id = true
  /\ at_time = now
  /\ st1 = {| parking_lot :=
                dict_set (parking_lot st) slot_id
                  (Some {| vehicle_no := upper v; type := upper t;
                           entry_time := now; is_vip := vip |});
              revenue_log := revenue_log st |}.
Proof.
  unfold vehicle_entry.
  destruct (valid_type (upper t)) eqn:V; cbn [negb]; [| discriminate].
  destruct (find_vehicle (parking_lot st) (upper v)) eqn:F; [discriminate |].
  destruct (find_available_slot (parking_lot st) (upper t) vip)
    as [[[s ty] |] | e] eqn:A; try discriminate.
  destruct (truthy s) eqn:T; [| discriminate].
  intros [= <- <- <-]. auto.
Qed.

Lemma reservation_kept (st : state) (o : op) (slot_id : string) (info : reservation) :
  invariant st ->
  dict_get (parking_lot st) slot_id = Some (Some info) ->
  no_exit_of (vehicle_no info) o ->
  dict_get (parking_lot (step st o)) slot_id = Some (Some info).
Proof.
  intros [U _ _ _ _] G N. destruct o as [v t vip now | v now]; cbn [step].
  - destruct (vehicle_entry_cases v t vip now st)
      as [-> | (s & _ & _ & Hin & _ & ->)]; [exact G |].
    cbn [snd parking_lot]. rewrite dict_get_dict_set_other; [exact G |].
    intros ->. rewrite (dict_get_In _ _ _ U Hin) in G. discriminate.
  - destruct (vehicle_exit_cases v now st)
      as [-> | (s & info' & F & _ & G' & ->)]; [exact G |].
    cbn [snd parking_lot]. rewrite dict_get_dict_set_other; [exact G |].
    intros ->. apply find_vehicle_Some in F as (r & Hin & E).
    rewrite (dict_get_In _ _ _ U Hin) in G. inversion G; subst.
    cbn [no_exit_of] in N. congruence.
Qed.

Lemma reservation_kept_run (ops : list op) (st : state)
    (slot_id : string) (info : reservation) :
  invariant st ->
  dict_get (parking_lot st) slot_id = Some (Some info) ->
  Forall (no_exit_of (vehicle_no info)) ops ->
  invariant (run st ops)
  /\ dict_get (parking_lot (run st ops)) slot_id = Some (Some info).
Proof.
  revert st. induction ops as [| o ops IH]; intros st I G N; cbn [run fold_left].
  - auto.
  - inversion N as [| ? ? No Nops]; subst.
    apply IH; [apply invariant_step, I | apply reservation_kept; trivial | exact Nops].
Qed.

(** The exit of a vehicle whose reservation sits in [slot_id]. *)
Lemma vehicle_exit_parked (st : state) (v : string) (now : Z)
    (slot_id : string) (info : reservation) :
  invariant st ->
  dict_get (parking_lot st) slot_id = Some (Some info) ->
  truthy slot_id = true ->
  vehicle_no info = upper v ->
  vehicle_exit v now st
  = (Ok (ExitReport slot_id (type info)
           (snd (calculate_fee (entry_time info) now (type info)))
           (fst (calculate_fee (entry_time info) now (type info)))),
     {| parking_lot := dict_set (parking_lot st) slot_id None;
        revenue_log := revenue_log st ++
          [ {| tx_vehicle_no := upper v;
               tx_type := type info;
               tx_slot_id := slot_id;
               tx_entry_time := entry_time info;
               tx_exit_time := now;
               tx_duration_hrs :=
                 snd (calculate_fee (entry_time info) now (type info));
               tx_fee :=
                 fst (calculate_fee (entry_time info) now (type info)) |} ] |}).
Proof.
  intros [U ND _ _ _] G T E.
  pose proof (dict_get_Some_In _ _ _ G) as Hin.
  destruct (vehicle_exit_cases v now st)
    as [_ | (s & info' & F & _ & G' & ->)].
  - unfold vehicle_exit.
    destruct (find_vehicle (parking_lot st) (upper v)) as [s |] eqn:F.
    + apply find_vehicle_Some in F as (r & Hr & Er).
      destruct (same_vehicle_same_reservation _ _ _ _ _ ND Hr Hin) as [-> ->];
        [congruence |].
      rewrite T, G. reflexivity.
    + exfalso. apply find_vehicle_None in F. apply F.
      apply parked_vehicles_In. eauto.
  - apply find_vehicle_Some in F as (r & Hr & Er).
    destruct (same_vehicle_same_reservation _ _ _ _ _ ND Hr Hin) as [-> ->];
      [congruence |].
    rewrite G in G'. inversion G'; subst. reflexivity.
Qed.

(** C10: every fee is computed at the tier of the vehicle type stored
    with the reservation.  In every reachable state each ledger entry has
    a type among BIKE, CAR, EV, HEAVY and carries the fee and hours that
    [calculate_fee] gives for that type, whose tier is not the VIP tier.
    And a vehicle admitted by [vehicle_entry] with requested type [t],
    whatever its VIP flag and its slot, is billed on its exit (after any
    operations other than its own exit) the fee of the tier of the
    uppercased [t], from the entry time to the exit time. *)
Theorem fee_uses_requested_type_tier (st : state) :
  reachable st ->
  Forall (fun tx => billed_by_type tx
                    /\ pricing_scheme (tx_type tx) <> PRICING_VIP)
    (revenue_log st)
  /\ forall v t vip entered slot_id at_time st1 ops v' now,
       vehicle_entry v t vip entered st = (Ok (Entered slot_id at_time), st1) ->
       Forall (no_exit_of (upper v)) ops ->
       upper v' = upper v ->
       valid_type (upper t) = true
       /\ dict_get PRICING (upper t) = Some (pricing_scheme (upper t))
       /\ pricing_scheme (upper t) <> PRICING_VIP
       /\ exists st3,
            vehicle_exit v' now (run st1 ops)
            = (Ok (ExitReport slot_id (upper t)
                     (total_hours (now - entered))
                     (fee_of_hours (pricing_scheme (upper t))
                        (total_hours (now - entered)))),
               st3)
            /\ revenue_log st3
               = revenue_log (run st1 ops) ++
                 [ {| tx_vehicle_no := upper v;
                      tx_type := upper t;
                      tx_slot_id := slot_id;
                      tx_entry_time := entered;
                      tx_exit_time := now;
                      tx_duration_hrs := total_hours (now - entered);
                      tx_fee := fee_of_hours (pricing_scheme (upper t))
                                  (total_hours (now - entered)) |} ].
Proof.
  intros R. pose proof (reachable_invariant _ R) as I. split.
  - destruct I as [_ _ _ _ Led]. eapply Forall_impl; [| exact Led].
    intros tx B. split; [exact B |]. apply valid_type_tier, B.
  - intros v t vip entered slot_id at_time st1 ops v' now E N Ev.
    pose proof (invariant_step st (Entry v t vip entered) I) as I1.
    cbn [step] in I1. rewrite E in I1. cbn [snd] in I1.
    apply vehicle_entry_Entered in E as (V & T & -> & ->).
    destruct (valid_type_tier _ V) as [P NV].
    repeat split; trivial.
    set (info := {| vehicle_no := upper v; type := upper t;
                    entry_time := entered; is_vip := vip |}) in *.
    set (st1 := {| parking_lot := dict_set (parking_lot st) slot_id (Some info);
                   revenue_log := revenue_log st |}) in *.
    assert (dict_get (parking_lot st1) slot_id = Some (Some info)) as G
      by apply dict_get_dict_set_same.
    destruct (reservation_kept_run ops st1 slot_id info I1 G N) as [I2 G2].
    eexists. split.
    + rewrite (vehicle_exit_parked _ v' now slot_id info I2 G2 T);
        [| symmetry; exact Ev].
      reflexivity.
    + cbn [revenue_log]. rewrite Ev. reflexivity.
Qed.


Lemma fee_uses_requested_type_tier_witness :
  let st := run (initial_state [("V-01", None); ("C-01", None)])
              [Entry "ab1" "car" false 100; Exit "AB1" 7200000100] in
  let st1 := snd (vehicle_entry "ef3" "ev" true 8000000000 st) in
  let ops := [Entry "gh4" "car" false 8000000500; Exit "Gh4" 9000000000] in
  let now := 20000000000 in
  Forall (fun tx => billed_by_type tx
                    /\ pricing_scheme (tx_type tx) <> PRICING_VIP)
    (revenue_log st)
  /\ valid_type (upper "ev") = true
  /\ dict_get PRICING (upper "ev") = Some (pricing_scheme (upper "ev"))
  /\ pricing_scheme (upper "ev") <> PRICING_VIP
  /\ exists st3,
       vehicle_exit "EF3" now (run st1 ops)
       = (Ok (ExitReport "V-01" (upper "ev")
                (total_hours (now - 8000000000))
                (fee_of_hours (pricing_scheme (upper "ev"))
                   (total_hours (now - 8000000000)))),
          st3)
       /\ revenue_log st3
          = revenue_log (run st1 ops) ++
            [ {| tx_vehicle_no := upper "ef3";
                 tx_type := upper "ev";
                 tx_slot_id := "V-01";
                 tx_entry_time := 8000000000;
                 tx_exit_time := now;
                 tx_duration_hrs := total_hours (now - 8000000000);
                 tx_fee := fee_of_hours (pricing_scheme (upper "ev"))
                             (total_hours (now - 8000000000)) |} ].
Proof.
  cbv zeta.
  destruct (fee_uses_requested_type_tier
              (run (initial_state [("V-01", None); ("C-01", None)])
                 [Entry "ab1" "car" false 100; Exit "AB1" 7200000100]))
    as [L A].
  - apply reachable_run.
    apply (reach_init one_car_one_vip (fun ks => ks)). reflexivity.
  - split; [exact L |].
    apply (A "ef3" "ev" true 8000000000 "V-01" 8000000000).
    + reflexivity.
    + repeat constructor. cbn [no_exit_of]. discriminate.
    + reflexivity.
Defined.

End Reachability.

(** * Allocation policy: which slot a request gets *)

Section AllocationPolicy.

Lemma first_empty_exhausted (wanted : string -> bool) (l : lot) :
  exhausted wanted l -> first_empty wanted l = None.
Proof.
  intros H. destruct (first_empty wanted l) as [s |] eqn:E; [| reflexivity].
  destruct (first_empty_In _ _ _ E) as [Hin Hw].
  rewrite (H _ Hin) in Hw. discriminate.
Qed.

(** The three scans of [find_available_slot], once the type is known to
    have a first character. *)
Lemma find_available_slot_scans (l : lot) (vehicle_type : string) (is_vip' : bool) :
  vehicle_type <> EmptyString ->
  find_available_slot l vehicle_type is_vip' =
  match (if is_vip' then first_empty (fun s => startswith s "V-") l else None) with
  | Some slot_id => Ok (Some (slot_id, "VIP"))
  | None =>
      match first_empty
              (fun s => startswith s (type_prefix vehicle_type ++ "-")%string) l with
      | Some slot_id => Ok (Some (slot_id, vehicle_type))
      | None =>
          if is_car_or_ev vehicle_type then
            match first_empty (fun s => startswith s "C-" || startswith s "V-") l with
            | Some slot_id =>
                allocated_type <- stored_type l slot_id vehicle_type ;;
                Ok (Some (slot_id, allocated_type))
            | None => Ok None
            end
          else Ok None
      end
  end.
Proof.
  intros NE. destruct vehicle_type as [| c r]; [contradiction |].
  reflexivity.
Qed.

(** A slot returned by the allocation is empty, and is either the
    first empty VIP slot (VIP requests only) or the first empty slot of
    the requested type; no other slot is ever handed out. *)
Theorem allocated_slot_is_vip_or_own_type
    (l : lot) (vehicle_type : string) (is_vip' : bool)
    (slot_id allocated_type : string) :
  unique_keys l ->
  find_available_slot l vehicle_type is_vip' = Ok (Some (slot_id, allocated_type)) ->
  In (slot_id, None) l
  /\ ((is_vip' = true /\ allocated_type = "VIP"
       /\ is_first_empty (fun s => startswith s "V-") l slot_id)
      \/ (allocated_type = vehicle_type
          /\ is_first_empty
               (fun s => startswith s (type_prefix vehicle_type ++ "-")%string)
               l slot_id)).
Proof.
  intros U H. split; [apply (find_available_slot_empty _ _ _ _ _ H) |].
  destruct vehicle_type as [| c r].
  - unfold find_available_slot in H.
    destruct is_vip'; [| discriminate].
    destruct (first_empty (fun s => startswith s "V-") l) as [s |] eqn:E1;
      [| discriminate].
    inversion H; subst. left. repeat split. apply first_empty_Some, E1.
  - rewrite find_available_slot_scans in H by discriminate.
    destruct (if is_vip' then first_empty (fun s => startswith s "V-") l else None)
      as [s |] eqn:E1.
    { destruct is_vip'; [| discriminate]. inversion H; subst.
      left. repeat split. apply first_empty_Some, E1. }
    destruct (first_empty
                (fun s => startswith s (type_prefix (String c r) ++ "-")%string) l)
      as [s |] eqn:E2.
    { inversion H; subst. right. split; [reflexivity |].
      apply first_empty_Some, E2. }
    destruct (is_car_or_ev (String c r)); [| discriminate].
    destruct (first_empty (fun s => startswith s "C-" || startswith s "V-") l)
      as [s |] eqn:E3; [| discriminate].
    rewrite (stored_type_of_empty _ _ _ _ U E3) in H. discriminate.
Qed.

Lemma allocated_slot_is_vip_or_own_type_witness :
  In ("E-01", @None reservation) [("V-01", None); ("E-01", None)]
  /\ ((false = true /\ "EV" = "VIP"
       /\ is_first_empty (fun s => startswith s "V-")
            [("V-01", None); ("E-01", None)] "E-01")
      \/ ("EV" = "EV"
          /\ is_first_empty
               (fun s => startswith s (type_prefix "EV" ++ "-")%string)
               [("V-01", None); ("E-01", None)] "E-01")).
Proof.
  apply (allocated_slot_is_vip_or_own_type
           [("V-01", None); ("E-01", None)] "EV" false "E-01" "EV").
  - repeat constructor; simpl; intuition discriminate.
  - reflexivity.
Defined.

(** The fallback scan of [find_available_slot] never yields a slot.
    Whenever a CAR or EV request gets past the VIP scan and the scan of
    its own pool, and some CAR or VIP slot is empty, the call raises
    [AttributeError]. *)
Theorem spillover_always_raises
    (l : lot) (vehicle_type : string) (is_vip' : bool) (k : string) :
  unique_keys l ->
  is_car_or_ev vehicle_type = true ->
  (is_vip' = true -> exhausted (fun s => startswith s "V-") l) ->
  exhausted (fun s => startswith s (type_prefix vehicle_type ++ "-")%string) l ->
  In (k, None) l ->
  startswith k "C-" || startswith k "V-" = true ->
  find_available_slot l vehicle_type is_vip' = Raise AttributeError.
Proof.
  intros U T NoV Full Hin Hk.
  rewrite find_available_slot_scans by (destruct vehicle_type; discriminate).
  assert ((if is_vip' then first_empty (fun s => startswith s "V-") l else None)
          = None) as ->.
  { destruct is_vip'; [| reflexivity]. apply first_empty_exhausted; auto. }
  rewrite (first_empty_exhausted _ _ Full), T.
  destruct (first_empty_exists
              (fun s => startswith s "C-" || startswith s "V-") l k Hin Hk)
    as [slot_id E3].
  rewrite E3, (stored_type_of_empty _ _ _ _ U E3). reflexivity.
Qed.

Lemma spillover_always_raises_witness :
  find_available_slot
    [("C-01", None);
     ("V-01", Some {| vehicle_no := "AB1"; type := "CAR";
                      entry_time := 0; is_vip := true |})]
    "EV" true
  = Raise AttributeError.
Proof.
  apply (spillover_always_raises _ "EV" true "C-01").
  - repeat constructor; simpl; intuition discriminate.
  - reflexivity.
  - intros _ k [E | [E | []]]; inversion E; subst. reflexivity.
  - intros k [E | [E | []]]; inversion E; subst. reflexivity.
  - simpl. tauto.
  - reflexivity.
Defined.

Lemma own_type_scan
    (l : lot) (vehicle_type : string) (is_vip' : bool) (k : string) :
  vehicle_type <> EmptyString ->
  (is_vip' = true -> exhausted (fun s => startswith s "V-") l) ->
  In (k, None) l ->
  startswith k (type_prefix vehicle_type ++ "-")%string = true ->
  exists slot_id,
    find_available_slot l vehicle_type is_vip' = Ok (Some (slot_id, vehicle_type))
    /\ is_first_empty
         (fun s => startswith s (type_prefix vehicle_type ++ "-")%string) l slot_id.
Proof.
  intros NE NoV Hin Hk. rewrite find_available_slot_scans by exact NE.
  assert ((if is_vip' then first_empty (fun s => startswith s "V-") l else None)
          = None) as ->.
  { destruct is_vip'; [| reflexivity]. apply first_empty_exhausted; auto. }
  destruct (first_empty_exists
              (fun s => startswith s (type_prefix vehicle_type ++ "-")%string)
              l k Hin Hk) as [slot_id E].
  exists slot_id. rewrite E. split; [reflexivity | apply first_empty_Some, E].
Qed.

(** A request whose VIP scan finds nothing (not VIP, or no empty VIP
    slot) gets the first empty slot of its own type, in iteration order,
    tagged with the requested type. *)
Theorem own_type_slot_allocated
    (l : lot) (vehicle_type : string) (is_vip' : bool) (k : string) :
  vehicle_type <> EmptyString ->
  (is_vip' = true -> exhausted (fun s => startswith s "V-") l) ->
  In (k, None) l ->
  startswith k (type_prefix vehicle_type ++ "-")%string = true ->
  exists slot_id,
    find_available_slot l vehicle_type is_vip' = Ok (Some (slot_id, vehicle_type))
    /\ is_first_empty
         (fun s => startswith s (type_prefix vehicle_type ++ "-")%string) l slot_id.
Proof. exact (own_type_scan l vehicle_type is_vip' k). Qed.

Lemma own_type_slot_allocated_witness :
  exists slot_id,
    find_available_slot
      [("V-01", None); ("H-02", None); ("H-01", None)] "HEAVY" false
    = Ok (Some (slot_id, "HEAVY"))
    /\ is_first_empty (fun s => startswith s (type_prefix "HEAVY" ++ "-")%string)
         [("V-01", None); ("H-02", None); ("H-01", None)] slot_id.
Proof.
  apply (own_type_slot_allocated _ "HEAVY" false "H-01").
  - discriminate.
  - discriminate.
  - simpl. tauto.
  - reflexivity.
Defined.

Lemma no_slot_scan
    (l : lot) (vehicle_type : string) (is_vip' : bool) :
  vehicle_type <> EmptyString ->
  (is_vip' = true -> exhausted (fun s => startswith s "V-") l) ->
  exhausted (fun s => startswith s (type_prefix vehicle_type ++ "-")%string) l ->
  (is_car_or_ev vehicle_type = true ->
   exhausted (fun s => startswith s "C-" || startswith s "V-") l) ->
  find_available_slot l vehicle_type is_vip' = Ok None.
Proof.
  intros NE NoV Full NoCV. rewrite find_available_slot_scans by exact NE.
  assert ((if is_vip' then first_empty (fun s => startswith s "V-") l else None)
          = None) as ->.
  { destruct is_vip'; [| reflexivity]. apply first_empty_exhausted; auto. }
  rewrite (first_empty_exhausted _ _ Full).
  destruct (is_car_or_ev vehicle_type); [| reflexivity].
  rewrite (first_empty_exhausted _ _ (NoCV eq_refl)). reflexivity.
Qed.

(** When nothing fits, the allocation answers [(None, None)]: the VIP
    scan finds nothing, the pool of the requested type has no empty slot,
    and, for CAR and EV, no CAR or VIP slot is empty either.  Slots of
    other pools may well be empty: a BIKE or HEAVY request never looks at
    them. *)
Theorem no_slot_for_request
    (l : lot) (vehicle_type : string) (is_vip' : bool) :
  vehicle_type <> EmptyString ->
  (is_vip' = true -> exhausted (fun s => startswith s "V-") l) ->
  exhausted (fun s => startswith s (type_prefix vehicle_type ++ "-")%string) l ->
  (is_car_or_ev vehicle_type = true ->
   exhausted (fun s => startswith s "C-" || startswith s "V-") l) ->
  find_available_slot l vehicle_type is_vip' = Ok None.
Proof. exact (no_slot_scan l vehicle_type is_vip'). Qed.

Lemma no_slot_for_request_witness :
  find_available_slot
    [("C-01", None); ("V-01", None);
     ("B-01", Some {| vehicle_no := "MH12"; type := "BIKE";
                      entry_time := 0; is_vip := false |})]
    "BIKE" false
  = Ok None.
Proof.
  apply no_slot_for_request.
  - discriminate.
  - discriminate.
  - intros k [E | [E | [E | []]]]; inversion E; subst; reflexivity.
  - discriminate.
Defined.

End AllocationPolicy.

(** * Entry and exit: effect on the state *)

Section EntryExit.

Lemma startswith_truthy (s p : string) :
  p <> EmptyString -> startswith s p = true -> truthy s = true.
Proof.
  unfold startswith. destruct p as [| a p]; [contradiction |].
  destruct s; [discriminate | reflexivity].
Qed.

Lemma own_prefix_nonempty (vehicle_type : string) :
  (type_prefix vehicle_type ++ "-")%string <> EmptyString.
Proof. destruct (type_prefix vehicle_type); discriminate. Qed.

Lemma valid_type_nonempty (vehicle_type : string) :
  valid_type vehicle_type = true -> vehicle_type <> EmptyString.
Proof. intros H ->. discriminate. Qed.

(** An entry never touches the ledger.  Unless it reports success it
    returns the state unchanged; on success the entry time is the clock
    reading, the slot was empty, and the registry differs only by the new
    reservation written to that slot. *)
Theorem vehicle_entry_effect
    (v t : string) (vip : bool) (now : Z) (st : state) :
  revenue_log (snd (vehicle_entry v t vip now st)) = revenue_log st
  /\ match fst (vehicle_entry v t vip now st) with
     | Ok (Entered slot_id at_time) =>
         at_time = now
         /\ In (slot_id, None) (parking_lot st)
         /\ parking_lot (snd (vehicle_entry v t vip now st))
            = dict_set (parking_lot st) slot_id
                (Some {| vehicle_no := upper v; type := upper t;
                         entry_time := now; is_vip := vip |})
     | _ => snd (vehicle_entry v t vip now st) = st
     end.
Proof.
  unfold vehicle_entry.
  destruct (valid_type (upper t)); cbn [negb]; [| split; reflexivity].
  destruct (find_vehicle (parking_lot st) (upper v)); [split; reflexivity |].
  destruct (find_available_slot (parking_lot st) (upper t) vip)
    as [[[slot_id ty] |] | e] eqn:A; try (split; reflexivity).
  destruct (truthy slot_id); [| split; reflexivity].
  cbn [fst snd parking_lot revenue_log]. repeat split.
  apply (find_available_slot_empty _ _ _ _ _ A).
Qed.

(** An exit that does not produce a receipt returns the state unchanged.
    A receipt names an occupied slot and the type stored in it, carries the
    fee and hours that [calculate_fee] gives from the stored entry time to
    the clock reading, empties exactly that slot and appends exactly one
    entry, with the same figures, at the end of the ledger. *)
Theorem vehicle_exit_effect (v : string) (now : Z) (st : state) :
  match fst (vehicle_exit v now st) with
  | Ok (ExitReport slot_id v_type hours fee) =>
      exists info,
        In (slot_id, Some info) (parking_lot st)
        /\ v_type = type info
        /\ (fee, hours) = calculate_fee (entry_time info) now (type info)
        /\ parking_lot (snd (vehicle_exit v now st))
           = dict_set (parking_lot st) slot_id None
        /\ revenue_log (snd (vehicle_exit v now st))
           = revenue_log st ++
             [ {| tx_vehicle_no := upper v;
                  tx_type := v_type;
                  tx_slot_id := slot_id;
                  tx_entry_time := entry_time info;
                  tx_exit_time := now;
                  tx_duration_hrs := hours;
                  tx_fee := fee |} ]
  | _ => snd (vehicle_exit v now st) = st
  end.
Proof.
  unfold vehicle_exit.
  destruct (find_vehicle (parking_lot st) (upper v)) as [slot_id |]; [| reflexivity].
  destruct (truthy slot_id); cbn [negb]; [| reflexivity].
  destruct (dict_get (parking_lot st) slot_id) as [[info |] |] eqn:G;
    try reflexivity.
  cbn [calculate_fee fst snd parking_lot revenue_log].
  exists info. repeat split. apply dict_get_Some_In, G.
Qed.

(** A vehicle that is not parked, asks for a valid type and is not served
    from the VIP pool is parked in the first empty slot of its own type;
    the reservation records the uppercased number and type, the clock
    reading and the VIP flag. *)
Theorem vehicle_entry_own_pool
    (st : state) (v t : string) (vip : bool) (now : Z) (k : string) :
  valid_type (upper t) = true ->
  ~ In (upper v) (parked_vehicles (parking_lot st)) ->
  (vip = true -> exhausted (fun s => startswith s "V-") (parking_lot st)) ->
  In (k, None) (parking_lot st) ->
  startswith k (type_prefix (upper t) ++ "-")%string = true ->
  exists slot_id,
    vehicle_entry v t vip now st
    = (Ok (Entered slot_id now),
       {| parking_lot :=
            dict_set (parking_lot st) slot_id
              (Some {| vehicle_no := upper v; type := upper t;
                       entry_time := now; is_vip := vip |});
          revenue_log := revenue_log st |})
    /\ is_first_empty
         (fun s => startswith s (type_prefix (upper t) ++ "-")%string)
         (parking_lot st) slot_id.
Proof.
  intros V NP NoV Hin Hk.
  destruct (own_type_scan _ _ vip k (valid_type_nonempty _ V) NoV Hin Hk)
    as (slot_id & A & F).
  exists slot_id. split; [| exact F].
  unfold vehicle_entry. rewrite V. cbn [negb].
  apply find_vehicle_None in NP. rewrite NP, A.
  destruct F as (_ & _ & _ & W & _).
  rewrite (startswith_truthy _ _ (own_prefix_nonempty _) W). reflexivity.
Qed.

Lemma vehicle_entry_own_pool_witness :
  exists slot_id,
    vehicle_entry "ka05" "bike" false 42
      (initial_state [("V-01", None); ("B-02", None); ("B-01", None)])
    = (Ok (Entered slot_id 42),
       {| parking_lot :=
            dict_set [("V-01", None); ("B-02", None); ("B-01", None)] slot_id
              (Some {| vehicle_no := upper "ka05"; type := upper "bike";
                       entry_time := 42; is_vip := false |});
          revenue_log := [] |})
    /\ is_first_empty
         (fun s => startswith s (type_prefix (upper "bike") ++ "-")%string)
         [("V-01", None); ("B-02", None); ("B-01", None)] slot_id.
Proof.
  apply (vehicle_entry_own_pool
           (initial_state [("V-01", None); ("B-02", None); ("B-01", None)])
           "ka05" "bike" false 42 "B-01").
  - reflexivity.
  - simpl. tauto.
  - discriminate.
  - simpl. tauto.
  - reflexivity.
Defined.

(** A VIP customer who is not parked and asks for a valid type is parked
    in the first empty VIP slot whenever there is one; the reservation
    keeps the requested type, not "VIP", with the VIP flag set. *)
Theorem vehicle_entry_vip_pool
    (st : state) (v t : string) (now : Z) (k : string) :
  valid_type (upper t) = true ->
  ~ In (upper v) (parked_vehicles (parking_lot st)) ->
  In (k, None) (parking_lot st) ->
  startswith k "V-" = true ->
  exists slot_id,
    vehicle_entry v t true now st
    = (Ok (Entered slot_id now),
       {| parking_lot :=
            dict_set (parking_lot st) slot_id
              (Some {| vehicle_no := upper v; type := upper t;
                       entry_time := now; is_vip := true |});
          revenue_log := revenue_log st |})
    /\ is_first_empty (fun s => startswith s "V-") (parking_lot st) slot_id.
Proof.
  intros V NP Hin Hk.
  destruct (first_empty_exists (fun s => startswith s "V-") _ k Hin Hk)
    as [slot_id E].
  exists slot_id. pose proof (first_empty_Some _ _ _ E) as F.
  split; [| exact F].
  unfold vehicle_entry. rewrite V. cbn [negb].
  apply find_vehicle_None in NP. rewrite NP.
  unfold find_available_slot. rewrite E.
  destruct F as (_ & _ & _ & W & _).
  rewrite (startswith_truthy slot_id "V-" ltac:(discriminate) W). reflexivity.
Qed.

Lemma vehicle_entry_vip_pool_witness :
  exists slot_id,
    vehicle_entry "dl8c" "heavy" true 7
      (initial_state [("H-01", None); ("V-02", None); ("V-01", None)])
    = (Ok (Entered slot_id 7),
       {| parking_lot :=
            dict_set [("H-01", None); ("V-02", None); ("V-01", None)] slot_id
              (Some {| vehicle_no := upper "dl8c"; type := upper "heavy";
                       entry_time := 7; is_vip := true |});
          revenue_log := [] |})
    /\ is_first_empty (fun s => startswith s "V-")
         [("H-01", None); ("V-02", None); ("V-01", None)] slot_id.
Proof.
  apply (vehicle_entry_vip_pool
           (initial_state [("H-01", None); ("V-02", None); ("V-01", None)])
           "dl8c" "heavy" 7 "V-01").
  - reflexivity.
  - simpl. tauto.
  - simpl. tauto.
  - reflexivity.
Defined.

(** A valid, not yet parked vehicle for which no scan finds a slot is
    told that the lot is full, and the state is unchanged. *)
Theorem vehicle_entry_lot_full
    (st : state) (v t : string) (vip : bool) (now : Z) :
  valid_type (upper t) = true ->
  ~ In (upper v) (parked_vehicles (parking_lot st)) ->
  (vip = true -> exhausted (fun s => startswith s "V-") (parking_lot st)) ->
  exhausted (fun s => startswith s (type_prefix (upper t) ++ "-")%string)
    (parking_lot st) ->
  (is_car_or_ev (upper t) = true ->
   exhausted (fun s => startswith s "C-" || startswith s "V-") (parking_lot st)) ->
  vehicle_entry v t vip now st = (Ok LotFull, st).
Proof.
  intros V NP NoV Full NoCV. unfold vehicle_entry. rewrite V. cbn [negb].
  apply find_vehicle_None in NP. rewrite NP.
  rewrite (no_slot_scan _ _ vip (valid_type_nonempty _ V) NoV Full NoCV).
  reflexivity.
Qed.

Lemma vehicle_entry_lot_full_witness :
  vehicle_entry "tn09" "heavy" false 9
    (initial_state [("C-01", None); ("V-01", None)])
  = (Ok LotFull, initial_state [("C-01", None); ("V-01", None)]).
Proof.
  apply vehicle_entry_lot_full.
  - reflexivity.
  - simpl. tauto.
  - discriminate.
  - intros k [E | [E | []]]; inversion E; subst; reflexivity.
  - discriminate.
Defined.

(** An entry never overwrites a reservation: whatever it does, every slot
    that was occupied still holds the same reservation afterwards. *)
Theorem vehicle_entry_keeps_reservations
    (st : state) (v t : string) (vip : bool) (now : Z)
    (slot_id : string) (info : reservation) :
  unique_keys (parking_lot st) ->
  dict_get (parking_lot st) slot_id = Some (Some info) ->
  dict_get (parking_lot (snd (vehicle_entry v t vip now st))) slot_id
  = Some (Some info).
Proof.
  intros U G.
  destruct (vehicle_entry_cases v t vip now st)
    as [-> | (s & _ & _ & Hin & _ & ->)]; [exact G |].
  cbn [snd parking_lot]. rewrite dict_get_dict_set_other; [exact G |].
  intros ->. rewrite (dict_get_In _ _ _ U Hin) in G. discriminate.
Qed.

Lemma vehicle_entry_keeps_reservations_witness :
  dict_get
    (parking_lot
       (snd (vehicle_entry "up16" "car" true 50
               {| parking_lot :=
                    [("V-01", Some {| vehicle_no := "AB1"; type := "EV";
                                      entry_time := 1; is_vip := true |});
                     ("C-01", None)];
                  revenue_log := [] |})))
    "V-01"
  = Some (Some {| vehicle_no := "AB1"; type := "EV";
                  entry_time := 1; is_vip := true |}).
Proof.
  apply vehicle_entry_keeps_reservations.
  - repeat constructor; simpl; intuition discriminate.
  - reflexivity.
Defined.

End EntryExit.

(** * Sessions: how entries and exits compose *)

Section Sessions.

Lemma dict_set_restore {V : Type} (d : dict V) (k : string) (v x : V) :
  dict_get d k = Some v -> dict_set (dict_set d k x) k v = d.
Proof.
  induction d as [| [k0 v0] rest IH]; cbn [dict_get dict_set]; [discriminate |].
  destruct (String.eqb_spec k0 k) as [-> | N]; cbn [dict_set].
  - rewrite String.eqb_refl. intros [= ->]. reflexivity.
  - destruct (String.eqb_spec k0 k); [contradiction |].
    intros H. rewrite (IH H). reflexivity.
Qed.

Lemma vehicle_entry_Entered_empty (v t : string) (vip : bool) (now : Z)
    (st st1 : state) (slot_id : string) (at_time : Z) :
  vehicle_entry v t vip now st = (Ok (Entered slot_id at_time), st1) ->
  In (slot_id, None) (parking_lot st).
Proof.
  unfold vehicle_entry.
  destruct (valid_type (upper t)); cbn [negb]; [| discriminate].
  destruct (find_vehicle (parking_lot st) (upper v)); [discriminate |].
  destruct (find_available_slot (parking_lot st) (upper t) vip)
    as [[[s ty] |] | e] eqn:A; try discriminate.
  destruct (truthy s); [| discriminate].
  intros [= <- _ _]. apply (find_available_slot_empty _ _ _ _ _ A).
Qed.

(** A vehicle admitted in a reachable state and taken out again, with no
    request in between, leaves the registry exactly as it was before the
    entry.  The receipt names the slot of the entry and the requested
    type, and the ledger grows by one entry.  If the exit comes within
    the first hour, one hour is billed at the flat rate of the type. *)
Theorem entry_then_exit_restores_registry
    (st st1 : state) (v t : string) (vip : bool) (now : Z)
    (slot_id : string) (at_time : Z) (v' : string) (now' : Z) :
  reachable st ->
  vehicle_entry v t vip now st = (Ok (Entered slot_id at_time), st1) ->
  upper v' = upper v ->
  exists st2 tx,
    vehicle_exit v' now' st1
    = (Ok (ExitReport slot_id (upper t) (tx_duration_hrs tx) (tx_fee tx)), st2)
    /\ parking_lot st2 = parking_lot st
    /\ revenue_log st2 = revenue_log st ++ [tx]
    /\ (tx_fee tx, tx_duration_hrs tx) = calculate_fee now now' (upper t)
    /\ (now' - now < 3600000001 ->
        tx_duration_hrs tx = 1
        /\ tx_fee tx = FIXED_RATE (pricing_scheme (upper t))).
Proof.
  intros R E Ev. pose proof (reachable_invariant _ R) as I.
  pose proof (invariant_step st (Entry v t vip now) I) as I1.
  cbn [step] in I1. rewrite E in I1. cbn [snd] in I1.
  pose proof (vehicle_entry_Entered_empty _ _ _ _ _ _ _ _ E) as Hin.
  apply vehicle_entry_Entered in E as (V & T & -> & ->).
  set (info := {| vehicle_no := upper v; type := upper t;
                  entry_time := now; is_vip := vip |}) in *.
  set (st1 := {| parking_lot := dict_set (parking_lot st) slot_id (Some info);
                 revenue_log := revenue_log st |}) in *.
  assert (dict_get (parking_lot st1) slot_id = Some (Some info)) as G
    by apply dict_get_dict_set_same.
  rewrite (vehicle_exit_parked st1 v' now' slot_id info I1 G T (eq_sym Ev)).
  set (tx := {| tx_vehicle_no := upper v';
                tx_type := upper t;
                tx_slot_id := slot_id;
                tx_entry_time := now;
                tx_exit_time := now';
                tx_duration_hrs := snd (calculate_fee now now' (upper t));
                tx_fee := fst (calculate_fee now now' (upper t)) |}).
  exists {| parking_lot := dict_set (parking_lot st1) slot_id None;
            revenue_log := revenue_log st1 ++ [tx] |}, tx.
  split; [reflexivity |].
  cbn [parking_lot revenue_log tx_fee tx_duration_hrs st1 tx].
  destruct I as [U _ _ _ _]. repeat split.
  - apply dict_set_restore, dict_get_In; trivial.
  - rewrite calculate_fee_unfold. cbn [snd]. apply total_hours_short, H.
  - rewrite calculate_fee_unfold. cbn [fst].
    rewrite (total_hours_short _ H). unfold fee_of_hours.
    destruct (tier_bounds (upper t)) as [F _].
    destruct (Z.leb_spec 1 (FIXED_HOURS (pricing_scheme (upper t)))); [reflexivity | lia].
Qed.

Lemma entry_then_exit_restores_registry_witness :
  let st := run (initial_state [("V-01", None); ("C-01", None)]) sample_ops in
  let st0 := snd (vehicle_exit "cd2" 7300000000 st) in
  exists st2 tx,
    vehicle_exit "Gj01" 9999000000
      (snd (vehicle_entry "gj01" "ev" true 9000000000 st0))
    = (Ok (ExitReport "V-01" (upper "ev") (tx_duration_hrs tx) (tx_fee tx)), st2)
    /\ parking_lot st2 = parking_lot st0
    /\ revenue_log st2 = revenue_log st0 ++ [tx]
    /\ (tx_fee tx, tx_duration_hrs tx)
       = calculate_fee 9000000000 9999000000 (upper "ev")
    /\ (9999000000 - 9000000000 < 3600000001 ->
        tx_duration_hrs tx = 1
        /\ tx_fee tx = FIXED_RATE (pricing_scheme (upper "ev"))).
Proof.
  cbv zeta.
  apply (entry_then_exit_restores_registry
           (snd (vehicle_exit "cd2" 7300000000
                   (run (initial_state [("V-01", None); ("C-01", None)]) sample_ops)))
           _ "gj01" "ev" true 9000000000 "V-01" 9000000000 "Gj01" 9999000000).
  - apply (reach_step _ (Exit "cd2" 7300000000)), sample_reachable.
  - reflexivity.
  - reflexivity.
Defined.

(** Once a vehicle has left, it is gone: after a receipt for an
    identifier, a further exit of the same identifier (in any letter
    case) reports that the vehicle is not found and changes nothing. *)
Theorem vehicle_exit_twice
    (st st' : state) (v : string) (now : Z)
    (slot_id v_type : string) (hours fee : Z) (v' : string) (now' : Z) :
  reachable st ->
  vehicle_exit v now st = (Ok (ExitReport slot_id v_type hours fee), st') ->
  upper v' = upper v ->
  vehicle_exit v' now' st' = (Ok VehicleNotFound, st').
Proof.
  intros R E Ev. pose proof (reachable_invariant _ R) as I.
  pose proof (invariant_step st (Exit v now) I) as I'.
  cbn [step] in I'. rewrite E in I'. cbn [snd] in I'.
  destruct I as [U ND _ _ _]. destruct I' as [U' _ _ _ _].
  destruct (vehicle_exit_cases v now st)
    as [Same | (s & info & F & _ & G & E')].
  { exfalso. clear - E Same. unfold vehicle_exit in *.
    destruct (find_vehicle (parking_lot st) (upper v)) as [s |]; [| discriminate].
    destruct (negb (truthy s)); [discriminate |].
    destruct (dict_get (parking_lot st) s) as [[info |] |]; try discriminate.
    cbn [calculate_fee snd] in Same. destruct st as [l lg].
    inversion Same as [[El Elg]].
    apply (f_equal (@List.length transaction)) in Elg.
    rewrite length_app in Elg. cbn [List.length] in Elg. lia. }
  rewrite E in E'. inversion E'; subst. clear E'.
  assert (find_vehicle (dict_set (parking_lot st) s None) (upper v') = None) as N.
  { apply find_vehicle_None. intros Hin.
    apply parked_vehicles_In in Hin as (s' & r & Hin' & Er).
    pose proof Hin' as Hold.
    apply dict_set_In in Hold as [[_ Hd] | Hold]; [discriminate |].
    apply find_vehicle_Some in F as (r0 & H0 & E0).
    destruct (same_vehicle_same_reservation _ _ _ _ _ ND Hold H0) as [-> ->];
      [congruence |].
    cbn [parking_lot] in U'.
    pose proof (dict_get_dict_set_same (parking_lot st) s (@None reservation)) as D.
    pose proof (dict_get_In _ _ _ U' Hin') as D'. congruence. }
  unfold vehicle_exit. cbn [parking_lot]. rewrite N. reflexivity.
Qed.

Lemma vehicle_exit_twice_witness :
  vehicle_exit "Ab1" 7300000000
    (snd (vehicle_exit "ab1" 7250000000
            (run (initial_state [("V-01", None); ("C-01", None)]) sample_ops)))
  = (Ok VehicleNotFound,
     snd (vehicle_exit "ab1" 7250000000
            (run (initial_state [("V-01", None); ("C-01", None)]) sample_ops))).
Proof.
  apply (vehicle_exit_twice
           (run (initial_state [("V-01", None); ("C-01", None)]) sample_ops)
           _ "ab1" 7250000000 "C-01" "CAR" 1 10).
  - apply sample_reachable.
  - reflexivity.
  - reflexivity.
Defined.

Lemma step_ledger (st : state) (o : op) :
  exists new,
    revenue_log (step st o) = revenue_log st ++ new
    /\ (List.length new <= 1)%nat.
Proof.
  destruct o as [v t vip now | v now]; cbn [step].
  - destruct (vehicle_entry_cases v t vip now st)
      as [-> | (s & _ & _ & _ & _ & ->)];
      exists []; cbn [snd revenue_log List.length]; rewrite app_nil_r; auto.
  - destruct (vehicle_exit_cases v now st)
      as [-> | (s & info & _ & _ & _ & ->)].
    + exists []. cbn [List.length]. rewrite app_nil_r. auto.
    + eexists. cbn [snd revenue_log]. split; [reflexivity | cbn; auto].
Qed.

(** The ledger is append-only: whatever requests are served, the entries
    already recorded stay in place and unchanged at the front of the
    ledger, and at most one entry is added per request. *)
Theorem ledger_append_only (st : state) (ops : list op) :
  exists suffix,
    revenue_log (run st ops) = revenue_log st ++ suffix
    /\ (List.length suffix <= List.length ops)%nat.
Proof.
  revert st. induction ops as [| o ops IH]; intros st; cbn [run fold_left].
  - exists []. rewrite app_nil_r. auto.
  - destruct (step_ledger st o) as (new & En & Ln).
    destruct (IH (step st o)) as (suffix & Es & Ls).
    exists (new ++ suffix). unfold run in Es. rewrite Es, En, <- app_assoc.
    split; [reflexivity |]. rewrite length_app. cbn [List.length]. lia.
Qed.

Lemma step_keys (st : state) (o : op) :
  keys (parking_lot (step st o)) = keys (parking_lot st).
Proof.
  destruct o as [v t vip now | v now]; cbn [step].
  - destruct (vehicle_entry_cases v t vip now st)
      as [-> | (s & _ & _ & Hin & _ & ->)]; [reflexivity |].
    cbn [snd parking_lot]. apply keys_dict_set_present.
    apply (in_map fst) in Hin. exact Hin.
  - destruct (vehicle_exit_cases v now st)
      as [-> | (s & info & _ & _ & G & ->)]; [reflexivity |].
    cbn [snd parking_lot]. apply keys_dict_set_present.
    apply dict_get_Some_In in G. apply (in_map fst) in G. exact G.
Qed.

(** The set of slots never changes: no sequence of entries and exits
    adds, removes, renames or reorders a slot id of the registry. *)
Theorem slot_ids_never_change (st : state) (ops : list op) :
  keys (parking_lot (run st ops)) = keys (parking_lot st).
Proof.
  revert st. induction ops as [| o ops IH]; intros st; cbn [run fold_left].
  - reflexivity.
  - unfold run in IH. rewrite IH. apply step_keys.
Qed.

(** In a session, an exit never ends in an exception, and the only
    exception an entry can end in is the [AttributeError] of the
    fallback scan. *)
Theorem session_exceptions (st : state) :
  reachable st ->
  (forall v now, exists report, fst (vehicle_exit v now st) = Ok report)
  /\ (forall v t vip now e,
        fst (vehicle_entry v t vip now st) = Raise e -> e = AttributeError).
Proof.
  intros R. destruct (reachable_invariant _ R) as [U _ _ _ _]. split.
  - intros v now. unfold vehicle_exit.
    destruct (find_vehicle (parking_lot st) (upper v)) as [s |] eqn:F;
      [| eexists; reflexivity].
    destruct (truthy s); cbn [negb]; [| eexists; reflexivity].
    apply find_vehicle_Some in F as (r & Hin & _).
    rewrite (dict_get_In _ _ _ U Hin). eexists; reflexivity.
  - intros v t vip now e. unfold vehicle_entry.
    destruct (valid_type (upper t)) eqn:V; cbn [negb]; [| discriminate].
    destruct (find_vehicle (parking_lot st) (upper v)); [discriminate |].
    rewrite find_available_slot_scans by (apply valid_type_nonempty, V).
    destruct (if vip then first_empty (fun s => startswith s "V-") (parking_lot st)
              else None) as [s1 |].
    { destruct (truthy s1); discriminate. }
    destruct (first_empty _ (parking_lot st)) as [s2 |].
    { destruct (truthy s2); discriminate. }
    destruct (is_car_or_ev (upper t)); [| discriminate].
    destruct (first_empty _ (parking_lot st)) as [s3 |]; [| discriminate].
    unfold stored_type.
    destruct (dict_get (parking_lot st) s3) as [[info |] |]; cbn [bind fst].
    + destruct (truthy s3); discriminate.
    + intros [= <-]. reflexivity.
    + destruct (truthy s3); discriminate.
Qed.

Lemma session_exceptions_witness :
  let st := run (initial_state [("V-01", None); ("C-01", None)]) sample_ops in
  (forall v now, exists report, fst (vehicle_exit v now st) = Ok report)
  /\ (forall v t vip now e,
        fst (vehicle_entry v t vip now st) = Raise e -> e = AttributeError).
Proof. apply (session_exceptions _ sample_reachable). Defined.

End Sessions.

(** * The registry built at start-up *)

Section SlotIdentifiers.

Lemma parse_format_02d (index : nat) : parse_decimal (format_02d index) = Some index.
Proof.
  unfold parse_decimal, format_02d.
  pose proof (NilEmpty.usu (Nat.to_uint index)) as U.
  destruct (index <? 10)%nat.
  - cbn [String.append NilEmpty.uint_of_string]. rewrite U. cbn.
    f_equal. apply DecimalNat.Unsigned.of_to.
  - rewrite U. cbn [option_map]. f_equal. apply DecimalNat.Unsigned.of_to.
Qed.

Lemma format_02d_injective (i j : nat) : format_02d i = format_02d j -> i = j.
Proof.
  intros E. apply (f_equal parse_decimal) in E.
  rewrite !parse_format_02d in E. congruence.
Qed.

Lemma string_append_injective (p a b : string) :
  (p ++ a)%string = (p ++ b)%string -> a = b.
Proof.
  induction p as [| c p IH]; cbn [String.append]; [trivial |].
  intros [= E]. auto.
Qed.

Lemma NoDup_map_injective {A B : Type} (f : A -> B) (xs : list A) :
  (forall x y, f x = f y -> x = y) -> NoDup xs -> NoDup (map f xs).
Proof.
  intros Inj. induction 1 as [| x xs Hn ND IH]; cbn [map]; constructor; [| exact IH].
  intros Hin. apply in_map_iff in Hin as (y & E & Hy).
  apply Inj in E. subst. contradiction.
Qed.

Lemma pool_ids_NoDup (prefix : string) (index count : nat) :
  NoDup (pool_ids prefix index count).
Proof.
  unfold pool_ids. apply NoDup_map_injective; [| apply seq_NoDup].
  intros i j E. apply string_append_injective in E.
  apply (string_append_injective "-") in E. apply format_02d_injective, E.
Qed.

Lemma pool_ids_startswith (c : ascii) (index count : nat) (k : string) :
  In k (pool_ids (String c EmptyString) index count) ->
  exists rest, k = String c (String "-" rest).
Proof.
  unfold pool_ids. intros H. apply in_map_iff in H as (i & <- & _).
  cbn [String.append]. eauto.
Qed.

Lemma pool_ids_disjoint (c1 c2 : ascii) (i1 n1 i2 n2 : nat) (k : string) :
  c1 <> c2 ->
  In k (pool_ids (String c1 EmptyString) i1 n1) ->
  ~ In k (pool_ids (String c2 EmptyString) i2 n2).
Proof.
  intros N H1 H2.
  apply pool_ids_startswith in H1 as [r1 ->].
  apply pool_ids_startswith in H2 as [r2 E]. congruence.
Qed.

Lemma all_slot_ids_pools (caps : capacities) :
  all_slot_ids caps
  = pool_ids "V" 1 (cap_VIP caps) ++ pool_ids "B" 1 (cap_BIKE caps)
    ++ pool_ids "C" 1 (cap_CAR caps) ++ pool_ids "E" 1 (cap_EV caps)
    ++ pool_ids "H" 1 (cap_HEAVY caps).
Proof. reflexivity. Qed.

Lemma all_slot_ids_NoDup (caps : capacities) : NoDup (all_slot_ids caps).
Proof.
  rewrite all_slot_ids_pools.
  repeat (apply NoDup_app; [apply pool_ids_NoDup | | ]);
    try apply pool_ids_NoDup;
    intros k Hk Hin;
    repeat (apply in_app_or in Hin as [Hin | Hin]);
    match goal with
    | H1 : In k (pool_ids (String ?c1 _) _ _),
      H2 : In k (pool_ids (String ?c2 _) _ _) |- _ =>
        exact (pool_ids_disjoint c1 c2 _ _ _ _ k ltac:(discriminate) H1 H2)
    end.
Qed.

Lemma dict_set_absent {V : Type} (d : dict V) (k : string) (v : V) :
  ~ In k (keys d) -> dict_set d k v = d ++ [(k, v)].
Proof.
  unfold keys. induction d as [| [k0 v0] rest IH]; cbn [dict_set map fst app];
    [reflexivity |].
  intros H. destruct (String.eqb_spec k0 k) as [-> | N].
  - exfalso. apply H. left; reflexivity.
  - rewrite IH; [reflexivity |]. intros Hin. apply H. right; exact Hin.
Qed.

Lemma keys_app {V : Type} (d1 d2 : dict V) : keys (d1 ++ d2) = keys d1 ++ keys d2.
Proof. unfold keys. apply map_app. Qed.

Lemma keys_empty_lot (ids : list string) : keys (empty_lot ids) = ids.
Proof.
  unfold keys, empty_lot. rewrite map_map. cbn [fst]. apply map_id.
Qed.

Lemma NoDup_app_head (ks : list string) (k : string) (rest : list string) :
  NoDup (ks ++ k :: rest) -> ~ In k ks /\ NoDup ((ks ++ [k]) ++ rest).
Proof.
  intros H. split.
  - apply NoDup_remove_2 in H. intros Hin. apply H. apply in_or_app. left; exact Hin.
  - rewrite <- app_assoc. exact H.
Qed.

(** Filling a pool whose ids are all new appends them, empty, in order. *)
Lemma fill_slots_fresh (v_type prefix : string) (count index : nat) (l : lot) :
  (forall i, generate_slot_id v_type i = Ok (prefix ++ "-" ++ format_02d i)%string) ->
  NoDup (keys l ++ pool_ids prefix index count) ->
  fill_slots v_type count index l
  = Ok (l ++ empty_lot (pool_ids prefix index count)).
Proof.
  intros G. revert index l.
  induction count as [| count IH]; intros index l ND; cbn [fill_slots].
  - unfold pool_ids, empty_lot. cbn [seq map]. rewrite app_nil_r. reflexivity.
  - rewrite G. cbn [bind]. unfold pool_ids in *. cbn [seq map] in *.
    apply NoDup_app_head in ND as [Fresh ND].
    rewrite (dict_set_absent _ _ _ Fresh).
    rewrite IH; [| rewrite keys_app; exact ND].
    unfold empty_lot. cbn [map]. rewrite <- app_assoc. reflexivity.
Qed.

(** Rebuilding from an all-empty source, with new and distinct keys taken
    from the source, appends them, empty, in the order given. *)
Lemma rebuild_fresh (source : lot) (ks : list string) (temp_lot : lot) :
  all_empty source ->
  (forall k, In k ks -> In k (keys source)) ->
  NoDup (keys temp_lot ++ ks) ->
  rebuild source ks temp_lot = Ok (temp_lot ++ empty_lot ks).
Proof.
  intros E. revert temp_lot.
  induction ks as [| k rest IH]; intros temp_lot Sub ND; cbn [rebuild].
  - unfold empty_lot. cbn [map]. rewrite app_nil_r. reflexivity.
  - destruct (dict_get_key source k (Sub k (or_introl eq_refl))) as [v G].
    unfold dict_getitem. rewrite G. cbn [bind].
    apply dict_get_Some_In, E in G as ->.
    apply NoDup_app_head in ND as [Fresh ND].
    rewrite (dict_set_absent _ _ _ Fresh).
    rewrite IH; [| intros k' Hk'; apply Sub; right; exact Hk'
                 | rewrite keys_app; exact ND].
    unfold empty_lot. cbn [map]. rewrite <- app_assoc. reflexivity.
Qed.

Lemma empty_lot_all_empty (ids : list string) : all_empty (empty_lot ids).
Proof.
  unfold all_empty, empty_lot. intros k v H.
  apply in_map_iff in H as (k' & [= _ <-] & _). reflexivity.
Qed.

Lemma NoDup_app_l (A : Type) (xs ys : list A) : NoDup (xs ++ ys) -> NoDup xs.
Proof.
  induction xs as [| x xs IH]; cbn [app]; [constructor |].
  intros H. inversion H as [| ? ? Hn ND]; subst. constructor; [| auto].
  intros Hin. apply Hn. apply in_or_app. left; exact Hin.
Qed.

Lemma py_sum_from (xs : list Z) (a : Z) : fold_left Z.add xs a = a + py_sum xs.
Proof.
  unfold py_sum. revert a. induction xs as [| x xs IH]; intros a; cbn [fold_left].
  - lia.
  - rewrite (IH (a + x)), (IH (0 + x)). lia.
Qed.

Lemma py_sum_cons (x : Z) (xs : list Z) : py_sum (x :: xs) = x + py_sum xs.
Proof. unfold py_sum at 1. cbn [fold_left]. rewrite py_sum_from. lia. Qed.

Lemma py_sum_app (xs ys : list Z) : py_sum (xs ++ ys) = py_sum xs + py_sum ys.
Proof.
  induction xs as [| x xs IH]; cbn [app]; [reflexivity |].
  rewrite !py_sum_cons, IH. lia.
Qed.

Lemma all_slot_ids_length (caps : capacities) :
  Z.of_nat (List.length (all_slot_ids caps)) = total_capacity caps.
Proof.
  unfold all_slot_ids, slot_ids, total_capacity.
  rewrite !length_app, !length_map, !length_seq.
  rewrite !py_sum_cons. unfold py_sum. cbn [fold_left]. lia.
Qed.

Lemma build_all_slots (caps : capacities) :
  exists l1,
    fill_slots "VIP" (cap_VIP caps) 1 [] = Ok l1
    /\ fill_types caps ["BIKE"; "CAR"; "EV"; "HEAVY"] l1
       = Ok (empty_lot (all_slot_ids caps)).
Proof.
  pose proof (all_slot_ids_NoDup caps) as ND5.
  rewrite all_slot_ids_pools in *. rewrite !app_assoc in ND5.
  pose proof (NoDup_app_l _ _ _ ND5) as ND4.
  pose proof (NoDup_app_l _ _ _ ND4) as ND3.
  pose proof (NoDup_app_l _ _ _ ND3) as ND2.
  pose proof (NoDup_app_l _ _ _ ND2) as ND1.
  eexists. split; [apply (fill_slots_fresh "VIP" "V"); [reflexivity | exact ND1] |].
  cbn [bind fill_types capacity String.eqb Ascii.eqb Bool.eqb app].
  rewrite (fill_slots_fresh "BIKE" "B");
    [| reflexivity | rewrite keys_empty_lot; exact ND2].
  cbn [bind].
  rewrite (fill_slots_fresh "CAR" "C");
    [| reflexivity | rewrite keys_app, !keys_empty_lot; exact ND3].
  cbn [bind].
  rewrite (fill_slots_fresh "EV" "E");
    [| reflexivity | rewrite !keys_app, !keys_empty_lot; exact ND4].
  cbn [bind].
  rewrite (fill_slots_fresh "HEAVY" "H");
    [| reflexivity | rewrite !keys_app, !keys_empty_lot; exact ND5].
  unfold empty_lot. rewrite !map_app, <- !app_assoc. reflexivity.
Qed.

Lemma run_keys (st : state) (ops : list op) :
  keys (parking_lot (run st ops)) = keys (parking_lot st).
Proof.
  revert st. induction ops as [| o ops IH]; intros st; cbn [run fold_left].
  - reflexivity.
  - unfold run in IH. rewrite IH. apply step_keys.
Qed.

Lemma occupied_count_parked (l : lot) :
  occupied_count l = Z.of_nat (List.length (parked_vehicles l)).
Proof.
  unfold occupied_count.
  induction l as [| [k [r |]] rest IH];
    cbn [map snd filter is_None negb parked_vehicles List.length].
  - reflexivity.
  - rewrite py_sum_cons, IH. lia.
  - exact IH.
Qed.

Lemma parked_vehicles_length (l : lot) :
  (List.length (parked_vehicles l) <= List.length l)%nat.
Proof.
  induction l as [| [k [r |]] rest IH]; cbn [parked_vehicles List.length]; lia.
Qed.

Lemma parked_vehicles_reserve (l : lot) (k : string) (info : reservation) :
  dict_get l k = Some None ->
  List.length (parked_vehicles (dict_set l k (Some info)))
  = S (List.length (parked_vehicles l)).
Proof.
  induction l as [| [k0 v0] rest IH]; cbn [dict_get dict_set]; [discriminate |].
  destruct (String.eqb_spec k0 k) as [-> | N].
  - intros [= ->]. reflexivity.
  - intros H. destruct v0; cbn [parked_vehicles List.length]; rewrite (IH H);
      reflexivity.
Qed.

Lemma parked_vehicles_release (l : lot) (k : string) (info : reservation) :
  dict_get l k = Some (Some info) ->
  S (List.length (parked_vehicles (dict_set l k None)))
  = List.length (parked_vehicles l).
Proof.
  induction l as [| [k0 v0] rest IH]; cbn [dict_get dict_set]; [discriminate |].
  destruct (String.eqb_spec k0 k) as [-> | N].
  - intros [= ->]. reflexivity.
  - intros H. destruct v0; cbn [parked_vehicles List.length]; rewrite <- (IH H);
      reflexivity.
Qed.

End SlotIdentifiers.

Section ShuffledRegistry.

Variable caps : capacities.

(** [random.shuffle] permutes the list of keys. *)
Variable shuffle : list string -> list string.
Hypothesis shuffle_permutes : forall ks, Permutation ks (shuffle ks).

Lemma initialize_parking_lot_eq :
  initialize_parking_lot caps shuffle
  = Ok (empty_lot (shuffle (all_slot_ids caps))).
Proof.
  unfold initialize_parking_lot.
  cbn [capacity String.eqb Ascii.eqb Bool.eqb bind].
  destruct (build_all_slots caps) as (l1 & F1 & F2).
  rewrite F1. cbn [bind]. rewrite F2. cbn [bind].
  rewrite keys_empty_lot.
  pose proof (shuffle_permutes (all_slot_ids caps)) as P.
  rewrite rebuild_fresh; [reflexivity | apply empty_lot_all_empty | |].
  - intros k Hin. rewrite keys_empty_lot.
    apply (Permutation_in k (Permutation_sym P) Hin).
  - cbn [keys map app].
    apply (Permutation_NoDup P), all_slot_ids_NoDup.
Qed.

(** Start-up builds one empty slot per unit of capacity: the registry is
    the list of the slot ids V-01.., B-01.., C-01.., E-01.., H-01.. in the
    order chosen by the shuffle, every slot empty; the ids are pairwise
    distinct and their number is the total capacity shown on the
    dashboard. *)
Theorem initialize_parking_lot_registry :
  exists l0,
    initialize_parking_lot caps shuffle = Ok l0
    /\ l0 = empty_lot (shuffle (all_slot_ids caps))
    /\ Permutation (all_slot_ids caps) (keys l0)
    /\ NoDup (keys l0)
    /\ all_empty l0
    /\ Z.of_nat (List.length l0) = total_capacity caps
    /\ occupied_count l0 = 0.
Proof.
  exists (empty_lot (shuffle (all_slot_ids caps))).
  pose proof (shuffle_permutes (all_slot_ids caps)) as P.
  split; [apply initialize_parking_lot_eq |]. split; [reflexivity |].
  rewrite keys_empty_lot. repeat split.
  - exact P.
  - apply (Permutation_NoDup P), all_slot_ids_NoDup.
  - apply empty_lot_all_empty.
  - unfold empty_lot. rewrite length_map, <- (Permutation_length P).
    apply all_slot_ids_length.
  - rewrite occupied_count_parked, (all_empty_parked _ (empty_lot_all_empty _)).
    reflexivity.
Qed.

(** The dashboard figures stay within bounds throughout a session: the
    occupied count is the number of reservations, it never exceeds the
    total capacity, and the available count is never negative. *)
Theorem dashboard_counts_in_range (l0 : lot) (ops : list op) :
  initialize_parking_lot caps shuffle = Ok l0 ->
  let l := parking_lot (run (initial_state l0) ops) in
  occupied_count l = Z.of_nat (List.length (parked_vehicles l))
  /\ 0 <= occupied_count l <= total_capacity caps
  /\ 0 <= available_count caps l <= total_capacity caps.
Proof.
  intros H l. rewrite initialize_parking_lot_eq in H. inversion H; subst l0.
  pose proof (run_keys (initial_state (empty_lot (shuffle (all_slot_ids caps)))) ops)
    as K.
  fold l in K. cbn [initial_state parking_lot] in K. rewrite keys_empty_lot in K.
  apply (f_equal (@List.length string)) in K.
  unfold keys in K. rewrite length_map in K.
  rewrite <- (Permutation_length (shuffle_permutes (all_slot_ids caps))) in K.
  pose proof (all_slot_ids_length caps) as T.
  pose proof (parked_vehicles_length l) as B.
  unfold available_count. rewrite occupied_count_parked. lia.
Qed.

End ShuffledRegistry.

Lemma initialize_parking_lot_registry_witness :
  exists l0,
    initialize_parking_lot MAX_SLOTS (@rev string) = Ok l0
    /\ l0 = empty_lot (rev (all_slot_ids MAX_SLOTS))
    /\ Permutation (all_slot_ids MAX_SLOTS) (keys l0)
    /\ NoDup (keys l0)
    /\ all_empty l0
    /\ Z.of_nat (List.length l0) = total_capacity MAX_SLOTS
    /\ occupied_count l0 = 0.
Proof.
  apply (initialize_parking_lot_registry MAX_SLOTS (@rev string)).
  intros ks. apply Permutation_rev.
Defined.

Lemma dashboard_counts_in_range_witness :
  let l := parking_lot
             (run (initial_state [("V-01", None); ("C-01", None)]) sample_ops) in
  occupied_count l = Z.of_nat (List.length (parked_vehicles l))
  /\ 0 <= occupied_count l <= total_capacity one_car_one_vip
  /\ 0 <= available_count one_car_one_vip l <= total_capacity one_car_one_vip.
Proof.
  apply (dashboard_counts_in_range one_car_one_vip (fun ks => ks)).
  - intros ks. apply Permutation_refl.
  - reflexivity.
Defined.

(** * Dashboard and report figures *)

Section Figures.

Lemma vehicle_exit_ExitReport (v : string) (now : Z) (st st' : state)
    (slot_id v_type : string) (hours fee : Z) :
  vehicle_exit v now st = (Ok (ExitReport slot_id v_type hours fee), st') ->
  exists info,
    dict_get (parking_lot st) slot_id = Some (Some info)
    /\ v_type = type info
    /\ (fee, hours) = calculate_fee (entry_time info) now (type info)
    /\ st' = {| parking_lot := dict_set (parking_lot st) slot_id None;
                revenue_log := revenue_log st ++
                  [ {| tx_vehicle_no := upper v;
                       tx_type := v_type;
                       tx_slot_id := slot_id;
                       tx_entry_time := entry_time info;
                       tx_exit_time := now;
                       tx_duration_hrs := hours;
                       tx_fee := fee |} ] |}.
Proof.
  unfold vehicle_exit.
  destruct (find_vehicle (parking_lot st) (upper v)) as [s |]; [| discriminate].
  destruct (truthy s); cbn [negb]; [| discriminate].
  destruct (dict_get (parking_lot st) s) as [[info |] |] eqn:G; try discriminate.
  cbn [calculate_fee]. intros [= <- <- <- <- <-].
  exists info. repeat split. exact G.
Qed.

(** In a session every successful entry raises the occupied count of the
    dashboard by exactly one, and every exit with a receipt lowers it by
    exactly one. *)
Theorem occupancy_follows_requests (st : state) :
  reachable st ->
  (forall v t vip now slot_id at_time st1,
     vehicle_entry v t vip now st = (Ok (Entered slot_id at_time), st1) ->
     occupied_count (parking_lot st1) = occupied_count (parking_lot st) + 1)
  /\ (forall v now slot_id v_type hours fee st1,
        vehicle_exit v now st = (Ok (ExitReport slot_id v_type hours fee), st1) ->
        occupied_count (parking_lot st1) = occupied_count (parking_lot st) - 1).
Proof.
  intros R. destruct (reachable_invariant _ R) as [U _ _ _ _]. split.
  - intros v t vip now slot_id at_time st1 E.
    pose proof (vehicle_entry_Entered_empty _ _ _ _ _ _ _ _ E) as Hin.
    apply vehicle_entry_Entered in E as (_ & _ & _ & ->).
    cbn [parking_lot]. rewrite !occupied_count_parked.
    rewrite (parked_vehicles_reserve _ _ _ (dict_get_In _ _ _ U Hin)). lia.
  - intros v now slot_id v_type hours fee st1 E.
    apply vehicle_exit_ExitReport in E as (info & G & _ & _ & ->).
    cbn [parking_lot]. rewrite !occupied_count_parked.
    rewrite <- (parked_vehicles_release _ _ _ G). lia.
Qed.

Lemma occupancy_follows_requests_witness :
  let st := run (initial_state [("V-01", None); ("C-01", None)])
              [Entry "ab1" "car" false 100] in
  (forall v t vip now slot_id at_time st1,
     vehicle_entry v t vip now st = (Ok (Entered slot_id at_time), st1) ->
     occupied_count (parking_lot st1) = occupied_count (parking_lot st) + 1)
  /\ (forall v now slot_id v_type hours fee st1,
        vehicle_exit v now st = (Ok (ExitReport slot_id v_type hours fee), st1) ->
        occupied_count (parking_lot st1) = occupied_count (parking_lot st) - 1).
Proof.
  apply (occupancy_follows_requests
           (run (initial_state [("V-01", None); ("C-01", None)])
              [Entry "ab1" "car" false 100])).
  apply reachable_run.
  apply (reach_init one_car_one_vip (fun ks => ks)). reflexivity.
Defined.

(** The category shown on the dashboard for an empty slot is the one the
    slot was created for: [intended_type] reads back, from every id that
    [generate_slot_id] produces for a category, that category.  Such an
    id is never the empty string, and it is accepted by the scan of
    [find_available_slot] for its category. *)
Theorem intended_type_of_generated (v_type : string) (index : nat) :
  In v_type ["BIKE"; "CAR"; "EV"; "HEAVY"; "VIP"] ->
  exists slot_id,
    generate_slot_id v_type index = Ok slot_id
    /\ intended_type slot_id = v_type
    /\ truthy slot_id = true
    /\ (valid_type v_type = true ->
        startswith slot_id (type_prefix v_type ++ "-")%string = true)
    /\ (v_type = "VIP" -> startswith slot_id "V-" = true).
Proof.
  intros [<- | [<- | [<- | [<- | [<- | []]]]]];
    eexists; (split; [reflexivity |]);
    destruct (format_02d index); repeat split;
    first [ reflexivity
          | intros _; reflexivity
          | intros H; vm_compute in H; discriminate H ].
Qed.

Lemma intended_type_of_generated_witness :
  exists slot_id,
    generate_slot_id "EV" 7 = Ok slot_id
    /\ intended_type slot_id = "EV"
    /\ truthy slot_id = true
    /\ (valid_type "EV" = true ->
        startswith slot_id (type_prefix "EV" ++ "-")%string = true)
    /\ ("EV" = "VIP" -> startswith slot_id "V-" = true).
Proof. apply intended_type_of_generated. simpl. tauto. Defined.

Lemma tier_rate_bound (vehicle_type : string) :
  5 <= FIXED_RATE (pricing_scheme vehicle_type).
Proof.
  pose proof (pricing_scheme_in_table vehicle_type) as H.
  unfold PRICING in H. cbn [map snd In] in H.
  repeat (destruct H as [<- | H]; [cbn; lia |]).
  contradiction.
Qed.

Lemma fee_of_hours_lower (vehicle_type : string) (hours : Z) :
  FIXED_RATE (pricing_scheme vehicle_type)
  <= fee_of_hours (pricing_scheme vehicle_type) hours.
Proof.
  destruct (tier_bounds vehicle_type) as [_ P]. unfold fee_of_hours.
  destruct (Z.leb_spec hours (FIXED_HOURS (pricing_scheme vehicle_type))); nia.
Qed.

(** Every bill is at least the flat rate of its tier, hence at least 5,
    for at least one hour; this holds for any pair of timestamps and any
    category string. *)
Theorem calculate_fee_lower_bounds
    (entry_time exit_time : Z) (vehicle_type : string) :
  1 <= snd (calculate_fee entry_time exit_time vehicle_type)
  /\ FIXED_RATE (pricing_scheme vehicle_type)
     <= fst (calculate_fee entry_time exit_time vehicle_type)
  /\ 5 <= fst (calculate_fee entry_time exit_time vehicle_type).
Proof.
  rewrite calculate_fee_unfold. cbn [fst snd].
  pose proof (fee_of_hours_lower vehicle_type (total_hours (exit_time - entry_time))).
  pose proof (tier_rate_bound vehicle_type).
  pose proof (total_hours_ge_1 (exit_time - entry_time)). lia.
Qed.

Lemma billed_by_type_bounds (tx : transaction) :
  billed_by_type tx -> 5 <= tx_fee tx /\ 1 <= tx_duration_hrs tx.
Proof.
  intros [_ E]. rewrite calculate_fee_unfold in E. inversion E as [[Ef Eh]].
  pose proof (fee_of_hours_lower (tx_type tx)
                (total_hours (tx_exit_time tx - tx_entry_time tx))).
  pose proof (tier_rate_bound (tx_type tx)).
  pose proof (total_hours_ge_1 (tx_exit_time tx - tx_entry_time tx)). lia.
Qed.

Lemma ledger_sums (log : list transaction) :
  Forall billed_by_type log ->
  5 * Z.of_nat (List.length log) <= py_sum (map tx_fee log)
  /\ Z.of_nat (List.length log) <= py_sum (map tx_duration_hrs log).
Proof.
  induction 1 as [| tx log B _ IH]; cbn [map List.length].
  - unfold py_sum. cbn. lia.
  - rewrite !py_sum_cons. apply billed_by_type_bounds in B. lia.
Qed.

(** The daily report of a session: with an empty ledger no figures are
    computed; otherwise the number of vehicles is the length of the
    ledger, the revenue is at least 5 per vehicle and the average
    duration is at least one hour. *)
Theorem daily_report_bounds (st : state) :
  reachable st ->
  match display_daily_report (revenue_log st) with
  | None => revenue_log st = []
  | Some figures =>
      total_vehicles figures = List.length (revenue_log st)
      /\ (0 < total_vehicles figures)%nat
      /\ 5 * Z.of_nat (total_vehicles figures) <= total_revenue figures
      /\ (1 <= avg_duration figures)%Q
  end.
Proof.
  intros R. destruct (reachable_invariant _ R) as [_ _ _ _ Led].
  destruct (ledger_sums _ Led) as [Fees Hours].
  destruct (revenue_log st) as [| tx log] eqn:L; [reflexivity |].
  unfold display_daily_report.
  cbn [total_vehicles total_revenue avg_duration].
  repeat split.
  - cbn [List.length]. lia.
  - exact Fees.
  - cbn [List.length Nat.eqb].
    apply Qle_shift_div_l.
    + change 0%Q with (inject_Z 0). rewrite <- Zlt_Qlt. lia.
    + rewrite Qmult_1_l, <- Zle_Qle. exact Hours.
Qed.

Lemma daily_report_bounds_witness :
  match display_daily_report
          (revenue_log
             (run (initial_state [("V-01", None); ("C-01", None)]) sample_ops)) with
  | None =>
      revenue_log
        (run (initial_state [("V-01", None); ("C-01", None)]) sample_ops) = []
  | Some figures =>
      total_vehicles figures
      = List.length
          (revenue_log
             (run (initial_state [("V-01", None); ("C-01", None)]) sample_ops))
      /\ (0 < total_vehicles figures)%nat
      /\ 5 * Z.of_nat (total_vehicles figures) <= total_revenue figures
      /\ (1 <= avg_duration figures)%Q
  end.
Proof. apply (daily_report_bounds _ sample_reachable). Defined.

(** A receipt shows up in the next daily report: the revenue grows by the
    fee of the receipt, the number of vehicles by one, and the average
    duration is taken over the old hours plus the billed hours. *)
Theorem daily_report_after_exit
    (st st' : state) (v : string) (now : Z)
    (slot_id v_type : string) (hours fee : Z) :
  vehicle_exit v now st = (Ok (ExitReport slot_id v_type hours fee), st') ->
  display_daily_report (revenue_log st')
  = Some {| total_revenue := py_sum (map tx_fee (revenue_log st)) + fee;
            total_vehicles := S (List.length (revenue_log st));
            avg_duration :=
              (inject_Z (py_sum (map tx_duration_hrs (revenue_log st)) + hours)
               / inject_Z (Z.of_nat (S (List.length (revenue_log st)))))%Q |}.
Proof.
  intros E. apply vehicle_exit_ExitReport in E as (info & _ & _ & _ & ->).
  cbn [revenue_log]. set (log := revenue_log st).
  set (tx := {| tx_vehicle_no := upper v; tx_type := v_type;
                tx_slot_id := slot_id; tx_entry_time := entry_time info;
                tx_exit_time := now; tx_duration_hrs := hours; tx_fee := fee |}).
  unfold display_daily_report.
  destruct (log ++ [tx]) as [| tx0 rest] eqn:L; [destruct log; discriminate |].
  rewrite <- L. clear L tx0 rest.
  assert (List.length (log ++ [tx]) = S (List.length log)) as ->
    by (rewrite length_app; cbn [List.length]; lia).
  rewrite !map_app, !py_sum_app. cbn [map Nat.eqb].
  rewrite !py_sum_cons. unfold py_sum at 2 4. cbn [fold_left tx_fee tx_duration_hrs tx].
  rewrite !Z.add_0_r. reflexivity.
Qed.

Lemma daily_report_after_exit_witness :
  display_daily_report
    (revenue_log
       (snd (vehicle_exit "cd2" 20000000000
               (run (initial_state [("V-01", None); ("C-01", None)]) sample_ops))))
  = Some {| total_revenue :=
              py_sum (map tx_fee
                        (revenue_log
                           (run (initial_state [("V-01", None); ("C-01", None)])
                              sample_ops)))
              + 36;
            total_vehicles :=
              S (List.length
                   (revenue_log
                      (run (initial_state [("V-01", None); ("C-01", None)])
                         sample_ops)));
            avg_duration :=
              (inject_Z
                 (py_sum (map tx_duration_hrs
                            (revenue_log
                               (run (initial_state [("V-01", None); ("C-01", None)])
                                  sample_ops)))
                  + 6)
               / inject_Z
                   (Z.of_nat
                      (S (List.length
                            (revenue_log
                               (run (initial_state [("V-01", None); ("C-01", None)])
                                  sample_ops))))))%Q |}.
Proof.
  apply (daily_report_after_exit _ _ "cd2" 20000000000 "V-01" "EV").
  reflexivity.
Defined.

(** On a stay that lasts a whole number of seconds the billed hours are
    the stay rounded up to full hours, and at least one. *)
Theorem calculate_fee_whole_seconds
    (entry_time seconds : Z) (vehicle_type : string) :
  0 <= seconds ->
  snd (calculate_fee entry_time (entry_time + seconds * 1000000) vehicle_type)
  = billed_hours_spec (seconds * 1000000)
  /\ billed_hours_spec (seconds * 1000000) = Z.max 1 ((seconds + 3599) / 3600).
Proof.
  intros H. rewrite calculate_fee_unfold. cbn [snd].
  replace (entry_time + seconds * 1000000 - entry_time)
    with (seconds * 1000000) by lia.
  split; [apply total_hours_whole_seconds, H |].
  rewrite <- (total_hours_whole_seconds _ H), total_hours_quot. f_equal.
  replace (seconds * 1000000 + 3599000000) with ((seconds + 3599) * 1000000) by lia.
  replace 3600000000 with (3600 * 1000000) by lia.
  apply Z.div_mul_cancel_r; lia.
Qed.

Lemma calculate_fee_whole_seconds_witness :
  snd (calculate_fee 17 (17 + 7201 * 1000000) "BIKE")
  = billed_hours_spec (7201 * 1000000)
  /\ billed_hours_spec (7201 * 1000000) = Z.max 1 ((7201 + 3599) / 3600).
Proof. apply calculate_fee_whole_seconds. lia. Defined.

(** Whatever the microseconds, the billed hours never exceed the stay
    rounded up to full hours, and fall short of it by at most one hour. *)
Theorem billed_hours_within_one_hour
    (entry_time exit_time : Z) (vehicle_type : string) :
  entry_time <= exit_time ->
  snd (calculate_fee entry_time exit_time vehicle_type)
  <= billed_hours_spec (exit_time - entry_time)
  <= snd (calculate_fee entry_time exit_time vehicle_type) + 1.
Proof.
  intros H. rewrite calculate_fee_unfold. cbn [snd].
  rewrite total_hours_quot, billed_hours_spec_quot.
  set (d := exit_time - entry_time).
  pose proof (Z.div_mod (d + 3599000000) 3600000000 ltac:(lia)) as E1.
  pose proof (Z.mod_pos_bound (d + 3599000000) 3600000000 ltac:(lia)) as B1.
  pose proof (Z.div_mod (- d) 3600000000 ltac:(lia)) as E2.
  pose proof (Z.mod_pos_bound (- d) 3600000000 ltac:(lia)) as B2.
  lia.
Qed.

Lemma billed_hours_within_one_hour_witness :
  snd (calculate_fee 0 3600500000 "CAR")
  <= billed_hours_spec (3600500000 - 0)
  <= snd (calculate_fee 0 3600500000 "CAR") + 1.
Proof. apply billed_hours_within_one_hour. lia. Defined.

(** A category string that is not a key of the pricing table, a
    lower-case name included, is billed at the CAR tier. *)
Theorem unknown_category_billed_as_car
    (entry_time exit_time : Z) (vehicle_type : string) :
  ~ In vehicle_type ["BIKE"; "CAR"; "EV"; "HEAVY"; "VIP"] ->
  pricing_scheme vehicle_type = PRICING_CAR
  /\ calculate_fee entry_time exit_time vehicle_type
     = calculate_fee entry_time exit_time "CAR".
Proof.
  intros N.
  assert (pricing_scheme vehicle_type = PRICING_CAR) as P.
  { unfold pricing_scheme, PRICING. cbn [dict_get].
    repeat (match goal with
            | |- context [String.eqb ?a vehicle_type] =>
                destruct (String.eqb_spec a vehicle_type) as [<- | _];
                [exfalso; apply N; simpl; tauto |]
            end).
    reflexivity. }
  split; [exact P |].
  rewrite !calculate_fee_unfold, P. reflexivity.
Qed.

Lemma unknown_category_billed_as_car_witness :
  pricing_scheme "bike" = PRICING_CAR
  /\ calculate_fee 0 9000000000 "bike" = calculate_fee 0 9000000000 "CAR".
Proof.
  apply unknown_category_billed_as_car.
  simpl. intuition discriminate.
Defined.

End Figures.
